(** * ctapipe.visualization.mpl: the matplotlib camera display

    A shallow embedding of [CameraDisplay] (src/ctapipe/visualization/mpl.py)
    and the properties of its operations.

    Numbers are real numbers ([R]): the arithmetic of the source is read
    exactly, which is the idealisation the radius and side laws are stated
    in.  numpy's [sqrt] of a negative number is nan where [R]'s is 0, so
    the laws that square a root are stated for areas that are not
    negative.  One-dimensional numpy arrays (the pixel sequences, an
    image) are lists, and their [shape] is the one-element tuple of their
    length.  matplotlib objects that the display mutates through a
    reference (the axes, the patch collection) live in a store and are
    named by handles, so that the display and the axes hold the same
    collection.  A Python exception leaves the store as it was when it
    was raised, so an operation maps a store to a store and an outcome.
    A redraw is recorded with the figure that was drawn and the axes and
    collections it showed.  A call that gives a parameter twice, once by
    position or name and once among its extra keywords, is a [TypeError]
    of the call.
    What matplotlib decides by itself (the registered colour maps, the
    patch properties it knows) is a parameter of the development. *)

From Stdlib Require Import Reals Lra DecimalString.
From stdpp Require Import base option list strings gmap.

Open Scope R_scope.

(** ** Python values, tuples and exceptions *)

Inductive pyvalue : Type :=
| PyNone
| PyBool (b : bool)
| PyFloat (x : R)
| PyStr (s : string).

(** The exceptions that the module or the calls it makes can raise:
    [ValueError] carries its message; [TypeError] is the error of a call
    that gets several values for one keyword argument; [AttributeError] is
    what the plotting library answers to a property it does not know. *)
Inductive exn : Type :=
| ValueError (msg : string)
| TypeError
| AttributeError (msg : string).

(** [str] of a non-negative integer. *)
Definition str_int (n : nat) : string :=
  NilEmpty.string_of_uint (Nat.to_uint n).

(** [str] of a tuple of integers: [()], [(5,)], [(2, 3)]. *)
Fixpoint join_comma (l : list nat) : string :=
  match l with
  | [] => ""
  | [n] => str_int n
  | n :: rest => str_int n +:+ ", " +:+ join_comma rest
  end.

Definition str_tuple (t : list nat) : string :=
  match t with
  | [n] => "(" +:+ str_int n +:+ ",)"
  | _ => "(" +:+ join_comma t +:+ ")"
  end.

(** A keyword dictionary ([**kwargs]). *)
Abbreviation kwargs_t := (gmap string pyvalue).

(** Some keyword of [names] is also a key of [kwargs]: the call would get
    two values for it. *)
Definition clashes (names : list string) (kwargs : kwargs_t) : bool :=
  existsb (fun k => bool_decide (is_Some (kwargs !! k))) names.

(** ** numpy *)

(** The shape of a one-dimensional array. *)
Definition shape {A : Type} (a : list A) : list nat := [length a].

Definition np_radians (x : R) : R := x * PI / 180.
Definition np_degrees (x : R) : R := x * 180 / PI.

(** [zip] of three sequences stops with the shortest. *)
Fixpoint zip3 {A B C : Type} (xs : list A) (ys : list B) (zs : list C)
  : list (A * B * C) :=
  match xs, ys, zs with
  | x :: xs', y :: ys', z :: zs' => (x, y, z) :: zip3 xs' ys' zs'
  | _, _, _ => []
  end.

(** ** matplotlib: patches, collections, axes *)

(** The patch constructors the module calls, with the arguments it passes.
    [Rectangle]'s [xy] is the rectangle's anchor, its lower left corner;
    [RegularPolygon]'s and [Ellipse]'s [xy] is the centre.  [Ellipse]'s
    [width] and [height] are the full extents of its horizontal and
    vertical axes before rotation, [angle] is in degrees. *)
Inductive Patch : Type :=
| RegularPolygon (xy : R * R) (numVertices : nat) (radius orientation : R)
    (fill : bool)
| Rectangle (xy : R * R) (width height angle : R) (fill : bool)
| Ellipse (xy : R * R) (width height angle : R) (fill : bool)
    (props : kwargs_t).

(** The centre of a patch that is not rotated about another point. *)
Definition patch_center (p : Patch) : R * R :=
  match p with
  | RegularPolygon xy _ _ _ _ => xy
  | Rectangle (x, y) w h _ _ => (x + w / 2, y + h / 2)
  | Ellipse xy _ _ _ _ _ => xy
  end.

(** The area a patch covers. *)
Definition patch_area (p : Patch) : R :=
  match p with
  | RegularPolygon _ n r _ _ => INR n / 2 * (r * r) * sin (2 * PI / INR n)
  | Rectangle _ w h _ _ => w * h
  | Ellipse _ w h _ _ _ => PI / 4 * (w * h)
  end.

Inductive Colormap : Type := cm (name : string).

(** [plt.cm.jet] *)
Definition plt_cm_jet : Colormap := cm "jet".

(** What [set_cmap] accepts: a colour map or the name of a registered one. *)
Inductive cmap_arg : Type :=
| CmapObject (c : Colormap)
| CmapName (name : string).

Record PatchCollection : Type := mkPatchCollection {
  pc_patches : list Patch;
  pc_cmap : Colormap;
  pc_linewidth : R;
  pc_array : option (list R)
}.

Record Axes : Type := mkAxes {
  ax_figure : nat;
  ax_collections : list nat;
  ax_patches : list Patch;
  ax_aspect : string * string;
  ax_title : string;
  ax_xlabel : string;
  ax_ylabel : string;
  ax_autoscaled : nat
}.

(** A fresh axes of figure [fig]. *)
Definition Axes_new (fig : nat) : Axes :=
  mkAxes fig [] [] ("auto", "box")%string "" "" "" 0.

(** ** The camera geometry and the moment parameters *)

(** An astropy quantity over a one-dimensional array. *)
Record Quantity : Type := mkQuantity {
  value : list R;
  unit_str : string
}.

Record CameraGeometry : Type := mkCameraGeometry {
  pix_x : Quantity;
  pix_y : Quantity;
  pix_area : list R;
  pix_type : string
}.

Module MomentParameters.
Record t : Type := mk {
    cen_x : R;
    cen_y : R;
    length : R;
    width : R;
    psi : R
}.
End MomentParameters.

(** The attributes of a constructed display.  [pixels] is [None] only
    inside [__init__]; [axes] and [pixels] are handles into the store. *)
Record CameraDisplay : Type := mkCameraDisplay {
  axes : nat;
  geom : CameraGeometry;
  pixels : nat;
  cmap : Colormap
}.

(** A callable connected to a canvas: the bound method [self._on_pick]. *)
Inductive Callback : Type :=
| on_pick_of (self : CameraDisplay).

(** ** The store: pyplot and the objects the display refers to *)

(** One redraw of a canvas: the figure that was drawn, and the axes and
    collections as they were when it was drawn. *)
Record Drawing : Type := mkDrawing {
  drawn_figure : nat;
  drawn_axes : list Axes;
  drawn_collections : list PatchCollection
}.

(** [mpl_gcf] is pyplot's current figure and [mpl_gca] the current axes of
    that figure; figures are numbered from 0 to [mpl_figures] - 1;
    [mpl_drawn] lists the redraws, the latest last. *)
Record Mpl : Type := mkMpl {
  mpl_axes : list Axes;
  mpl_collections : list PatchCollection;
  mpl_gca : option nat;
  mpl_gcf : option nat;
  mpl_figures : nat;
  mpl_connections : list (nat * string * Callback);
  mpl_drawn : list Drawing
}.

(** The number of redraws so far. *)
Definition mpl_draws (m : Mpl) : nat := length (mpl_drawn m).

Definition with_axes (f : list Axes -> list Axes) (m : Mpl) : Mpl :=
  mkMpl (f (mpl_axes m)) (mpl_collections m) (mpl_gca m) (mpl_gcf m)
    (mpl_figures m) (mpl_connections m) (mpl_drawn m).

Definition with_collections
    (f : list PatchCollection -> list PatchCollection) (m : Mpl) : Mpl :=
  mkMpl (mpl_axes m) (f (mpl_collections m)) (mpl_gca m) (mpl_gcf m)
    (mpl_figures m) (mpl_connections m) (mpl_drawn m).

(** What a call gives back. *)
Inductive outcome (A : Type) : Type :=
| Returns (a : A)
| Raises (e : exn).
Arguments Returns {A} a.
Arguments Raises {A} e.

(** A computation on the store; the store it leaves is kept when it raises. *)
Definition M (A : Type) : Type := Mpl -> Mpl * outcome A.

Definition ret {A : Type} (a : A) : M A := fun m => (m, Returns a).

Definition raise {A : Type} (e : exn) : M A := fun m => (m, Raises e).

Definition bind {A B : Type} (c : M A) (k : A -> M B) : M B :=
  fun m =>
    match c m with
    | (m', Returns a) => k a m'
    | (m', Raises e) => (m', Raises e)
    end.

Notation "x <- c1 ;; c2" := (bind c1 (fun x => c2))
  (at level 100, c1 at next level, right associativity).
Notation "c1 ;; c2" := (bind c1 (fun _ => c2))
  (at level 100, right associativity).

(** The value a Python method returns. *)
Inductive retval : Type :=
| RNone
| RPatch (p : Patch).

(** The store a computation leaves and what it gives back. *)
Definition store_after {A : Type} (c : M A) (m : Mpl) : Mpl := fst (c m).
Definition result_of {A : Type} (c : M A) (m : Mpl) : outcome A := snd (c m).

(** ** pyplot and the matplotlib methods the display calls *)

(** [plt.gcf()]: the current figure; pyplot makes one when there is
    none. *)
Definition plt_gcf : M nat :=
  fun m =>
    match mpl_gcf m with
    | Some f => (m, Returns f)
    | None =>
        let f := mpl_figures m in
        (mkMpl (mpl_axes m) (mpl_collections m) (mpl_gca m) (Some f) (S f)
           (mpl_connections m) (mpl_drawn m),
         Returns f)
    end.

(** [plt.gca()]: the current axes of the current figure; pyplot makes an
    axes on the current figure when it has none. *)
Definition plt_gca : M nat :=
  fun m =>
    match mpl_gca m with
    | Some a => (m, Returns a)
    | None =>
        match plt_gcf m with
        | (m1, Returns f) =>
            let a := length (mpl_axes m1) in
            (mkMpl (mpl_axes m1 ++ [Axes_new f]) (mpl_collections m1)
               (Some a) (mpl_gcf m1) (mpl_figures m1) (mpl_connections m1)
               (mpl_drawn m1),
             Returns a)
        | (m1, Raises e) => (m1, Raises e)
        end
    end.

(** [plt.draw()]: the canvas of the current figure is redrawn, with the
    axes and the collections as they are at this moment. *)
Definition plt_draw : M unit :=
  fun m =>
    match plt_gcf m with
    | (m1, Returns f) =>
        (mkMpl (mpl_axes m1) (mpl_collections m1) (mpl_gca m1) (mpl_gcf m1)
           (mpl_figures m1) (mpl_connections m1)
           (mpl_drawn m1
              ++ [mkDrawing f (mpl_axes m1) (mpl_collections m1)]),
         Returns tt)
    | (m1, Raises e) => (m1, Raises e)
    end.

(** [PatchCollection(patches, cmap=cmap, linewidth=linewidth)]: a new
    collection with no array of values yet; its handle is returned. *)
Definition PatchCollection_new (patches : list Patch) (cmap : Colormap)
    (linewidth : R) : M nat :=
  fun m =>
    (with_collections
       (fun cs => cs ++ [mkPatchCollection patches cmap linewidth None]) m,
     Returns (length (mpl_collections m))).

Definition pc_with_cmap (c : Colormap) (pc : PatchCollection)
  : PatchCollection :=
  mkPatchCollection (pc_patches pc) c (pc_linewidth pc) (pc_array pc).

Definition pc_with_array (A : list R) (pc : PatchCollection)
  : PatchCollection :=
  mkPatchCollection (pc_patches pc) (pc_cmap pc) (pc_linewidth pc) (Some A).

(** [collection.set_array(A)] *)
Definition PatchCollection_set_array (h : nat) (A : list R) : M unit :=
  fun m => (with_collections (alter (pc_with_array A) h) m, Returns tt).

Definition ax_with_collections (f : list nat -> list nat) (ax : Axes) : Axes :=
  mkAxes (ax_figure ax) (f (ax_collections ax)) (ax_patches ax) (ax_aspect ax)
    (ax_title ax) (ax_xlabel ax) (ax_ylabel ax) (ax_autoscaled ax).

Definition ax_with_patches (f : list Patch -> list Patch) (ax : Axes) : Axes :=
  mkAxes (ax_figure ax) (ax_collections ax) (f (ax_patches ax)) (ax_aspect ax)
    (ax_title ax) (ax_xlabel ax) (ax_ylabel ax) (ax_autoscaled ax).

Definition ax_with_aspect (asp : string * string) (ax : Axes) : Axes :=
  mkAxes (ax_figure ax) (ax_collections ax) (ax_patches ax) asp
    (ax_title ax) (ax_xlabel ax) (ax_ylabel ax) (ax_autoscaled ax).

Definition ax_with_title (s : string) (ax : Axes) : Axes :=
  mkAxes (ax_figure ax) (ax_collections ax) (ax_patches ax) (ax_aspect ax)
    s (ax_xlabel ax) (ax_ylabel ax) (ax_autoscaled ax).

Definition ax_with_xlabel (s : string) (ax : Axes) : Axes :=
  mkAxes (ax_figure ax) (ax_collections ax) (ax_patches ax) (ax_aspect ax)
    (ax_title ax) s (ax_ylabel ax) (ax_autoscaled ax).

Definition ax_with_ylabel (s : string) (ax : Axes) : Axes :=
  mkAxes (ax_figure ax) (ax_collections ax) (ax_patches ax) (ax_aspect ax)
    (ax_title ax) (ax_xlabel ax) s (ax_autoscaled ax).

Definition ax_autoscale (ax : Axes) : Axes :=
  mkAxes (ax_figure ax) (ax_collections ax) (ax_patches ax) (ax_aspect ax)
    (ax_title ax) (ax_xlabel ax) (ax_ylabel ax) (S (ax_autoscaled ax)).

(** A method of the axes behind handle [a]. *)
Definition on_axes (a : nat) (f : Axes -> Axes) : M unit :=
  fun m => (with_axes (alter f a) m, Returns tt).

Definition Axes_add_collection (a h : nat) : M unit :=
  on_axes a (ax_with_collections (fun hs => hs ++ [h])).

Definition Axes_add_patch (a : nat) (p : Patch) : M unit :=
  on_axes a (ax_with_patches (fun ps => ps ++ [p])).

Definition Axes_set_aspect (a : nat) (aspect adjustable : string) : M unit :=
  on_axes a (ax_with_aspect (aspect, adjustable)).

Definition Axes_set_title (a : nat) (s : string) : M unit :=
  on_axes a (ax_with_title s).

Definition Axes_set_xlabel (a : nat) (s : string) : M unit :=
  on_axes a (ax_with_xlabel s).

Definition Axes_set_ylabel (a : nat) (s : string) : M unit :=
  on_axes a (ax_with_ylabel s).

Definition Axes_autoscale_view (a : nat) : M unit :=
  on_axes a ax_autoscale.

(** [axes.figure.canvas.mpl_connect(event, callback)] *)
Definition canvas_mpl_connect (a : nat) (event : string) (cb : Callback)
  : M unit :=
  fun m =>
    match mpl_axes m !! a with
    | Some ax =>
        (mkMpl (mpl_axes m) (mpl_collections m) (mpl_gca m) (mpl_gcf m)
           (mpl_figures m)
           (mpl_connections m ++ [(ax_figure ax, event, cb)]) (mpl_drawn m),
         Returns tt)
    | None => (m, Returns tt)
    end.

(** The keywords that the call of [Ellipse] in [add_ellipse] passes. *)
Definition ellipse_keywords : list string :=
  ["xy"; "width"; "height"; "angle"; "fill"]%string.

(** The keywords that the call of [add_ellipse] in [overlay_moments]
    passes, with the receiver. *)
Definition add_ellipse_keywords : list string :=
  ["self"; "centroid"; "length"; "width"; "angle"]%string.

(** The parameters of [add_ellipse] and of [overlay_moments]: a call
    that gives them and also has one of these names among its extra
    keywords gets two values for it. *)
Definition add_ellipse_parameters : list string :=
  ["self"; "centroid"; "length"; "width"; "angle"; "asymmetry"]%string.

Definition overlay_moments_parameters : list string :=
  ["self"; "momparams"]%string.

Section Display.

(** What the plotting library decides by itself: the colour maps that are
    registered under a name, and whether it takes a dictionary of patch
    properties ([None]) or raises on it. *)
Variable cmap_registry : string -> option Colormap.
Variable patch_update : kwargs_t -> option exn.

(** [collection.set_cmap(cmap)]: the colour map is looked up first. *)
Definition PatchCollection_set_cmap (h : nat) (c : cmap_arg) : M unit :=
  match c with
  | CmapObject c' =>
      fun m => (with_collections (alter (pc_with_cmap c') h) m, Returns tt)
  | CmapName name =>
      match cmap_registry name with
      | Some c' =>
          fun m =>
            (with_collections (alter (pc_with_cmap c') h) m, Returns tt)
      | None => raise (ValueError ("Colormap " +:+ name +:+ " is not recognized"))
      end
  end.

(** The call [Ellipse(xy=.., width=.., height=.., angle=.., fill=..,
    **kwargs)]: a key of [kwargs] that repeats a keyword of the call is a
    [TypeError]; the other properties are for the library to take. *)
Definition Ellipse_call (xy : R * R) (width height angle : R) (fill : bool)
    (kwargs : kwargs_t) : M Patch :=
  if clashes ellipse_keywords kwargs
  then raise TypeError
  else
    match patch_update kwargs with
    | Some e => raise e
    | None => ret (Ellipse xy width height angle fill kwargs)
    end.

(** ** CameraDisplay *)

(** The body of the loop of [__init__]: the patch of one pixel. *)
Definition make_patch (pix_type : string) (xx yy aa : R) : Patch :=
  if String.prefix "hex" pix_type then
    let rr := sqrt (aa * 2 / 3 / sqrt 3) in
    RegularPolygon (xx, yy) 6 rr (np_radians 0) true
  else
    let rr := sqrt aa in
    Rectangle (xx, yy) (2 * rr) (2 * rr) (np_radians 0) true.

(** The loop of [__init__]: [patches] starts empty and gets one patch
    appended per element of the [zip]. *)
Definition pixel_patches (g : CameraGeometry) : list Patch :=
  foldl
    (fun patches '(xx, yy, aa) =>
       patches ++ [make_patch (pix_type g) xx yy aa])
    []
    (zip3 (value (pix_x g)) (value (pix_y g)) (pix_area g)).

Definition __init__ (geometry : CameraGeometry) (axes : option nat)
    (title : string) : M CameraDisplay :=
  self_axes <- match axes with
               | Some a => ret a
               | None => plt_gca
               end ;;
  let self_geom := geometry in
  let self_cmap := plt_cm_jet in
  let patches := pixel_patches self_geom in
  self_pixels <- PatchCollection_new patches self_cmap 0 ;;
  Axes_add_collection self_axes self_pixels ;;
  Axes_set_aspect self_axes "equal" "datalim" ;;
  Axes_set_title self_axes title ;;
  Axes_set_xlabel self_axes
    ("X position (" +:+ unit_str (pix_x self_geom) +:+ ")") ;;
  Axes_set_ylabel self_axes
    ("Y position (" +:+ unit_str (pix_y self_geom) +:+ ")") ;;
  Axes_autoscale_view self_axes ;;
  let self := mkCameraDisplay self_axes self_geom self_pixels self_cmap in
  canvas_mpl_connect self_axes "pick_event" (on_pick_of self) ;;
  ret self.

(** The default of [title]. *)
Definition default_title : string := "Camera".

Definition _radius_to_size (radii : list R) : list R :=
  map (fun r => r * PI * 550) radii.

Definition set_cmap (self : CameraDisplay) (cmap : cmap_arg) : M retval :=
  PatchCollection_set_cmap (pixels self) cmap ;;
  ret RNone.

(** The message of the [ValueError] of [set_image]. *)
Definition shape_message (image_shape geom_shape : list nat) : string :=
  "Image has a different shape " +:+ str_tuple image_shape
    +:+ " than the" +:+ "given CameraGeometry " +:+ str_tuple geom_shape.

Definition set_image (self : CameraDisplay) (image : list R) : M retval :=
  if bool_decide (shape image ≠ shape (value (pix_x (geom self)))) then
    raise (ValueError
             (shape_message (shape image)
                (shape (value (pix_x (geom self))))))
  else
    PatchCollection_set_array (pixels self) image ;;
    plt_draw ;;
    ret RNone.

(** The call [self.add_ellipse(centroid, length, width, angle, asymmetry,
    **kwargs)]: an extra keyword that names a parameter is a [TypeError]
    at the call; the other keywords are the [kwargs] of the body. *)
Definition add_ellipse (self : CameraDisplay) (centroid : R * R)
    (length width angle : R) (asymmetry : pyvalue) (kwargs : kwargs_t)
  : M retval :=
  if clashes add_ellipse_parameters kwargs
  then raise TypeError
  else
    ellipse <- Ellipse_call centroid width length (np_degrees angle) false
                 kwargs ;;
    Axes_add_patch (axes self) ellipse ;;
    plt_draw ;;
    ret (RPatch ellipse).

(** The default of [asymmetry]. *)
Definition default_asymmetry : pyvalue := PyFloat 0.

(** The call [self.add_ellipse(centroid=.., length=.., width=..,
    angle=.., **kwargs)]: a key of [kwargs] that repeats one of these
    keywords (or [self]) is a [TypeError]; the key [asymmetry] is the
    parameter of that name; the others are [add_ellipse]'s [kwargs]. *)
Definition add_ellipse_kw (self : CameraDisplay) (centroid : R * R)
    (length width angle : R) (kwargs : kwargs_t) : M retval :=
  if clashes add_ellipse_keywords kwargs
  then raise TypeError
  else
    add_ellipse self centroid length width angle
      (default default_asymmetry (kwargs !! "asymmetry"%string))
      (delete "asymmetry"%string kwargs).

(** The call [self.overlay_moments(momparams, **kwargs)]: an extra
    keyword that names a parameter is a [TypeError] at the call; the body
    has no [return]. *)
Definition overlay_moments (self : CameraDisplay)
    (momparams : MomentParameters.t) (kwargs : kwargs_t) : M retval :=
  if clashes overlay_moments_parameters kwargs
  then raise TypeError
  else
    add_ellipse_kw self
      (MomentParameters.cen_x momparams, MomentParameters.cen_y momparams)
      (MomentParameters.length momparams)
      (MomentParameters.width momparams)
      (MomentParameters.psi momparams)
      kwargs ;;
    ret RNone.

(** The line that [_on_pick] prints, from [str(event)] and
    [str(event.ind)]. *)
Definition _on_pick (self : CameraDisplay) (event_str ind_str : string)
  : string :=
  "EVENT: " +:+ event_str +:+ " N=" +:+ ind_str.

End Display.

(** ** The pixel count and the well-formed stores *)

(** The geometry's sequences have one entry per pixel. *)
Definition geometry_valid (g : CameraGeometry) : Prop :=
  length (value (pix_y g)) = length (value (pix_x g))
  /\ length (pix_area g) = length (value (pix_x g)).

(** The pixel count [N] of a geometry. *)
Definition npix (g : CameraGeometry) : nat := length (value (pix_x g)).

(** The handles of a display name live objects of the store: its axes
    shows its collection, and the collection holds the shapes of its
    geometry. *)
Definition display_ok (self : CameraDisplay) (m : Mpl) : Prop :=
  (exists ax, mpl_axes m !! axes self = Some ax
              /\ pixels self ∈ ax_collections ax)
  /\ (exists pc, mpl_collections m !! pixels self = Some pc
                 /\ pc_patches pc = pixel_patches (geom self)).

(** The axes handed to [__init__], if any, is a live object, and so is
    pyplot's current axes when there is one. *)
Definition axes_arg_ok (ax : option nat) (m : Mpl) : Prop :=
  match ax with
  | Some a => (a < length (mpl_axes m))%nat
  | None =>
      match mpl_gca m with
      | Some a => (a < length (mpl_axes m))%nat
      | None => True
      end
  end.

(** A string occurs in a message. *)
Definition mentions (msg s : string) : Prop :=
  exists pre post, msg = pre +:+ s +:+ post.

(** ** Predicates used by the properties *)

(** Two stores that differ at most in the colour map of collection [h]:
    the axes (with their overlays), pyplot's state and the redraw count
    are the same, every collection has the same shapes, line width and
    array of values, and every other collection is the same. *)
Definition same_but_cmap (h : nat) (m m' : Mpl) : Prop :=
  mpl_axes m' = mpl_axes m
  /\ mpl_gca m' = mpl_gca m
  /\ mpl_figures m' = mpl_figures m
  /\ mpl_connections m' = mpl_connections m
  /\ mpl_draws m' = mpl_draws m
  /\ mpl_gcf m' = mpl_gcf m
  /\ mpl_drawn m' = mpl_drawn m
  /\ pc_patches <$> mpl_collections m' = pc_patches <$> mpl_collections m
  /\ pc_array <$> mpl_collections m' = pc_array <$> mpl_collections m
  /\ pc_linewidth <$> mpl_collections m' = pc_linewidth <$> mpl_collections m
  /\ forall h', h' ≠ h -> mpl_collections m' !! h' = mpl_collections m !! h'.

(** The figure that [plt.gcf()] gives: the current one, or the one pyplot
    makes. *)
Definition current_figure (m : Mpl) : nat :=
  default (mpl_figures m) (mpl_gcf m).


(** Calling [set_cmap] with each colour map of [cs] in turn, whatever
    each call gives back. *)
Definition set_cmaps (cmap_registry : string -> option Colormap)
    (self : CameraDisplay) (cs : list cmap_arg) (m : Mpl) : Mpl :=
  foldl (fun m c => store_after (set_cmap cmap_registry self c) m) m cs.

(** The call the wrapper is compared with, as the sentence writes it:
    [add_ellipse(centroid=(cen_x, cen_y), length=length, width=width,
    angle=psi, **style)]. *)
Definition add_ellipse_from_moments (patch_update : kwargs_t -> option exn)
    (self : CameraDisplay) (momparams : MomentParameters.t)
    (style : kwargs_t) : M retval :=
  add_ellipse_kw patch_update self
    (MomentParameters.cen_x momparams, MomentParameters.cen_y momparams)
    (MomentParameters.length momparams)
    (MomentParameters.width momparams)
    (MomentParameters.psi momparams)
    style.

(** The sentence about rectangular pixels as it is written: the shape of
    pixel i is a filled square with rotation 0, centred at (x_i, y_i),
    of side s = 2 * sqrt(area_i), and it covers area_i. *)
Definition rectangular_pixel_as_written : Prop :=
  forall (g : CameraGeometry) (ax : option nat) (title : string) (m : Mpl)
         (i : nat) (xx yy aa : R),
    String.prefix "hex" (pix_type g) = false ->
    value (pix_x g) !! i = Some xx ->
    value (pix_y g) !! i = Some yy ->
    pix_area g !! i = Some aa ->
    exists self m' pc p s,
      __init__ g ax title m = (m', Returns self)
      /\ mpl_collections m' !! pixels self = Some pc
      /\ pc_patches pc !! i = Some p
      /\ (exists xy, p = Rectangle xy s s 0 true)
      /\ patch_center p = (xx, yy)
      /\ s = 2 * sqrt aa
      /\ patch_area p = aa.

(** ** Two small cameras *)

(** pyplot before anything was drawn. *)
Definition fresh : Mpl := mkMpl [] [] None None 0 [] [].

(** Two hexagonal pixels. *)
Definition hex_camera : CameraGeometry :=
  mkCameraGeometry (mkQuantity [0; 1] "m") (mkQuantity [0; 2] "m") [1; 4]
    "hexagonal".

(** One square pixel of area 1 at the origin. *)
Definition rect_camera : CameraGeometry :=
  mkCameraGeometry (mkQuantity [0] "m") (mkQuantity [0] "m") [1]
    "rectangular".

(** The display of [hex_camera] on pyplot's current axes, and the store
    its construction leaves. *)
Definition hex_display : CameraDisplay :=
  mkCameraDisplay 0 hex_camera 0 plt_cm_jet.

Definition hex_store : Mpl :=
  store_after (__init__ hex_camera None default_title) fresh.

(** The axes of [hex_store]. *)
Definition hex_axes : Axes :=
  mkAxes 0 [0%nat] [] ("equal", "datalim")%string "Camera" "X position (m)"
    "Y position (m)" 1.

(** A style: a red outline. *)
Definition red_outline : kwargs_t := {["edgecolor"%string := PyStr "red"]}.

(** Moment parameters: an ellipse at the origin, tilted by PI / 4. *)
Definition tilted_moments : MomentParameters.t :=
  MomentParameters.mk 0 0 2 1 (PI / 4).


(** A geometry whose area sequence is shorter than its x sequence. *)
Definition ragged_camera : CameraGeometry :=
  mkCameraGeometry (mkQuantity [0; 1; 2] "m") (mkQuantity [0; 1; 2] "m")
    [1; 1] "hexagonal".

(** A second display, of [rect_camera], made on the axes of [hex_display],
    and the store its construction leaves. *)
Definition rect_display : CameraDisplay :=
  mkCameraDisplay 0 rect_camera 1 plt_cm_jet.

Definition two_store : Mpl :=
  store_after (__init__ rect_camera (Some 0%nat) "Second") hex_store.

(** ** Sequences of calls on a display *)

(** A call of one of the public methods, with its arguments. *)
Inductive call : Type :=
| call_set_cmap (c : cmap_arg)
| call_set_image (image : list R)
| call_add_ellipse (centroid : R * R) (len wid angle : R)
    (asymmetry : pyvalue) (kwargs : kwargs_t)
| call_overlay_moments (momparams : MomentParameters.t) (kwargs : kwargs_t).

(** The store that a call leaves, whether it returns or raises. *)
Definition run_call (cmap_registry : string -> option Colormap)
    (patch_update : kwargs_t -> option exn) (self : CameraDisplay)
    (c : call) (m : Mpl) : Mpl :=
  match c with
  | call_set_cmap c' => store_after (set_cmap cmap_registry self c') m
  | call_set_image image => store_after (set_image self image) m
  | call_add_ellipse centroid len wid angle asymmetry kwargs =>
      store_after
        (add_ellipse patch_update self centroid len wid angle asymmetry
           kwargs) m
  | call_overlay_moments momparams kwargs =>
      store_after (overlay_moments patch_update self momparams kwargs) m
  end.

(** The calls of a list, one after the other. *)
Definition run_calls (cmap_registry : string -> option Colormap)
    (patch_update : kwargs_t -> option exn) (self : CameraDisplay)
    (cs : list call) (m : Mpl) : Mpl :=
  foldl (fun m c => run_call cmap_registry patch_update self c m) m cs.

(** ** Lists and tuples *)

Lemma zip3_lookup {A B C : Type} (xs : list A) (ys : list B) (zs : list C)
    (i : nat) (x : A) (y : B) (z : C) :
  xs !! i = Some x -> ys !! i = Some y -> zs !! i = Some z ->
  zip3 xs ys zs !! i = Some (x, y, z).
Proof.
  revert ys zs i.
  induction xs as [|x0 xs IH]; intros [|y0 ys] [|z0 zs] [|i]; simpl;
    try discriminate.
  - intros; congruence.
  - apply IH.
Qed.

Lemma zip3_length {A B C : Type} (xs : list A) (ys : list B) (zs : list C) :
  length ys = length xs -> length zs = length xs ->
  length (zip3 xs ys zs) = length xs.
Proof.
  revert ys zs.
  induction xs as [|x0 xs IH]; intros [|y0 ys] [|z0 zs]; simpl;
    try discriminate; auto.
Qed.

Lemma append_loop_fmap (t : string) (l : list (R * R * R)) (acc : list Patch) :
  foldl (fun patches '(xx, yy, aa) => patches ++ [make_patch t xx yy aa])
    acc l
  = acc ++ ((fun '(xx, yy, aa) => make_patch t xx yy aa) <$> l).
Proof.
  revert acc.
  induction l as [|[[xx yy] aa] l IH]; intros acc; simpl.
  - by rewrite app_nil_r.
  - rewrite IH. by rewrite <- app_assoc.
Qed.

Lemma pixel_patches_fmap (g : CameraGeometry) :
  pixel_patches g
  = (fun '(xx, yy, aa) => make_patch (pix_type g) xx yy aa)
      <$> zip3 (value (pix_x g)) (value (pix_y g)) (pix_area g).
Proof. unfold pixel_patches. by rewrite append_loop_fmap. Qed.

Lemma pixel_patches_lookup (g : CameraGeometry) (i : nat) (xx yy aa : R) :
  value (pix_x g) !! i = Some xx ->
  value (pix_y g) !! i = Some yy ->
  pix_area g !! i = Some aa ->
  pixel_patches g !! i = Some (make_patch (pix_type g) xx yy aa).
Proof.
  intros Hx Hy Ha.
  rewrite pixel_patches_fmap, list_lookup_fmap.
  by rewrite (zip3_lookup _ _ _ _ _ _ _ Hx Hy Ha).
Qed.

Lemma pixel_patches_length (g : CameraGeometry) :
  geometry_valid g -> length (pixel_patches g) = npix g.
Proof.
  intros [Hy Ha].
  rewrite pixel_patches_fmap, length_fmap.
  by apply zip3_length.
Qed.

(** ** Construction *)

(** What [__init__] leaves in the store of collections: it never raises,
    and the new collection is the last one. *)
Lemma init_collection (g : CameraGeometry) (ax : option nat) (title : string)
    (m : Mpl) :
  exists self m',
    __init__ g ax title m = (m', Returns self)
    /\ geom self = g
    /\ cmap self = plt_cm_jet
    /\ pixels self = length (mpl_collections m)
    /\ mpl_collections m'
       = mpl_collections m
           ++ [mkPatchCollection (pixel_patches g) plt_cm_jet 0 None].
Proof.
  unfold __init__, bind, canvas_mpl_connect.
  destruct ax as [a|]; simpl.
  - destruct (_ !! a); simpl; eauto 10.
  - unfold plt_gca, plt_gcf. destruct (mpl_gca m) as [a|]; simpl.
    + destruct (_ !! a); simpl; eauto 10.
    + destruct (mpl_gcf m) as [f|]; simpl;
        destruct (_ !! length (mpl_axes m)); simpl; eauto 10.
Qed.

(** The collection [__init__] makes, seen through the display's handle. *)
Lemma init_pixels (g : CameraGeometry) (ax : option nat) (title : string)
    (m : Mpl) :
  exists self m',
    __init__ g ax title m = (m', Returns self)
    /\ geom self = g
    /\ mpl_collections m' !! pixels self
       = Some (mkPatchCollection (pixel_patches g) plt_cm_jet 0 None)
    /\ forall h, (h < length (mpl_collections m))%nat ->
                 mpl_collections m' !! h = mpl_collections m !! h.
Proof.
  destruct (init_collection g ax title m)
    as (self & m' & Hinit & Hgeom & _ & Hpix & Hcolls).
  exists self, m'. repeat split; try done.
  - rewrite Hcolls, Hpix. by apply list_lookup_middle.
  - intros h Hh. rewrite Hcolls. by apply lookup_app_l.
Qed.

(** ** Arithmetic of the radius and side laws *)

Lemma np_radians_0 : np_radians 0 = 0.
Proof. unfold np_radians. lra. Qed.

Lemma sqrt3_pos : 0 < sqrt 3.
Proof. apply sqrt_lt_R0. lra. Qed.

Lemma hex_radius_formula (aa : R) :
  sqrt (aa * 2 / 3 / sqrt 3) = sqrt (aa * 2 / (3 * sqrt 3)).
Proof.
  f_equal. field. pose proof sqrt3_pos. lra.
Qed.

Lemma hex_radius_law (aa : R) :
  0 <= aa ->
  aa = 3 * sqrt 3 / 2 * (sqrt (aa * 2 / 3 / sqrt 3) * sqrt (aa * 2 / 3 / sqrt 3)).
Proof.
  intros Ha. pose proof sqrt3_pos as H3.
  rewrite sqrt_sqrt.
  - field. lra.
  - apply Rmult_le_pos; [lra|]. left. by apply Rinv_0_lt_compat.
Qed.

Lemma hexagon_area (xy : R * R) (rr o : R) (f : bool) :
  patch_area (RegularPolygon xy 6 rr o f) = 3 * sqrt 3 / 2 * (rr * rr).
Proof.
  unfold patch_area.
  replace (INR 6) with 6 by (simpl; lra).
  replace (2 * PI / 6) with (PI / 3) by lra.
  rewrite sin_PI3. lra.
Qed.

(** ** Construction: one shape per pixel *)

(** C5.  For a geometry whose three sequences have the same length N,
    construction returns a display whose collection holds exactly N
    shapes, and the shape at index i is the one built from the i-th x, y
    and area: one shape per pixel, in the order of the pixel sequences. *)
Theorem init_one_shape_per_pixel (g : CameraGeometry) (ax : option nat)
    (title : string) (m : Mpl) :
  geometry_valid g ->
  exists self m' pc,
    __init__ g ax title m = (m', Returns self)
    /\ geom self = g
    /\ mpl_collections m' !! pixels self = Some pc
    /\ length (pc_patches pc) = npix g
    /\ forall i xx yy aa,
         value (pix_x g) !! i = Some xx ->
         value (pix_y g) !! i = Some yy ->
         pix_area g !! i = Some aa ->
         pc_patches pc !! i = Some (make_patch (pix_type g) xx yy aa).
Proof.
  intros Hvalid.
  destruct (init_pixels g ax title m) as (self & m' & Hinit & Hgeom & Hpc & _).
  exists self, m', (mkPatchCollection (pixel_patches g) plt_cm_jet 0 None).
  repeat split; try done; simpl.
  - by apply pixel_patches_length.
  - intros i xx yy aa. apply pixel_patches_lookup.
Qed.

Lemma hex_camera_valid : geometry_valid hex_camera.
Proof. by split. Qed.

Lemma init_one_shape_per_pixel_witness :
  exists self m' pc,
    __init__ hex_camera None default_title fresh = (m', Returns self)
    /\ geom self = hex_camera
    /\ mpl_collections m' !! pixels self = Some pc
    /\ length (pc_patches pc) = npix hex_camera
    /\ forall i xx yy aa,
         value (pix_x hex_camera) !! i = Some xx ->
         value (pix_y hex_camera) !! i = Some yy ->
         pix_area hex_camera !! i = Some aa ->
         pc_patches pc !! i
         = Some (make_patch (pix_type hex_camera) xx yy aa).
Proof.
  apply (init_one_shape_per_pixel hex_camera None default_title fresh).
  split; reflexivity.
Defined.

(** ** Construction: hexagonal pixels *)

(** C2.  When the shape tag starts with "hex", the shape that construction
    builds for pixel i is a filled regular polygon of 6 vertices with
    centre (x_i, y_i), orientation 0 and radius
    r_i = sqrt(area_i * 2 / (3 * sqrt 3)); for an area that is not
    negative this is the radius with area_i = 3 * sqrt 3 / 2 * r_i^2, the
    area the hexagon covers. *)
Theorem init_hexagonal_pixel (g : CameraGeometry) (ax : option nat)
    (title : string) (m : Mpl) (i : nat) (xx yy aa : R) :
  String.prefix "hex" (pix_type g) = true ->
  value (pix_x g) !! i = Some xx ->
  value (pix_y g) !! i = Some yy ->
  pix_area g !! i = Some aa ->
  exists self m' pc p rr,
    __init__ g ax title m = (m', Returns self)
    /\ mpl_collections m' !! pixels self = Some pc
    /\ pc_patches pc !! i = Some p
    /\ p = RegularPolygon (xx, yy) 6 rr 0 true
    /\ patch_center p = (xx, yy)
    /\ rr = sqrt (aa * 2 / (3 * sqrt 3))
    /\ (0 <= aa -> aa = 3 * sqrt 3 / 2 * (rr * rr) /\ patch_area p = aa).
Proof.
  intros Hhex Hx Hy Ha.
  destruct (init_pixels g ax title m) as (self & m' & Hinit & Hgeom & Hpc & _).
  exists self, m', (mkPatchCollection (pixel_patches g) plt_cm_jet 0 None),
    (make_patch (pix_type g) xx yy aa), (sqrt (aa * 2 / 3 / sqrt 3)).
  split; [done|]. split; [done|].
  split; [by apply pixel_patches_lookup|].
  unfold make_patch. rewrite Hhex, np_radians_0. cbv zeta.
  split; [done|]. split; [done|].
  split; [apply hex_radius_formula|].
  intros Hpos. rewrite hexagon_area.
  pose proof (hex_radius_law aa Hpos). by split.
Qed.

Lemma init_hexagonal_pixel_witness :
  exists self m' pc p rr,
    __init__ hex_camera None default_title fresh = (m', Returns self)
    /\ mpl_collections m' !! pixels self = Some pc
    /\ pc_patches pc !! 1%nat = Some p
    /\ p = RegularPolygon (1, 2) 6 rr 0 true
    /\ patch_center p = (1, 2)
    /\ rr = sqrt (4 * 2 / (3 * sqrt 3))
    /\ (0 <= 4 -> 4 = 3 * sqrt 3 / 2 * (rr * rr) /\ patch_area p = 4).
Proof.
  apply (init_hexagonal_pixel hex_camera None default_title fresh 1 1 2 4);
    reflexivity.
Defined.

(** ** Construction: rectangular pixels *)

(** At [rect_camera], one pixel of area 1 at (0, 0), the sentence fails:
    the square that construction builds has its lower left corner, not its
    centre, at the pixel position, and covers 4 times the pixel area. *)
Lemma rectangular_pixel_counterexample :
  ~ rectangular_pixel_as_written
  /\ exists self m' pc p,
       __init__ rect_camera None default_title fresh = (m', Returns self)
       /\ mpl_collections m' !! pixels self = Some pc
       /\ pc_patches pc !! 0%nat = Some p
       /\ patch_center p ≠ (0, 0)
       /\ patch_area p ≠ 1.
Proof.
  destruct (init_pixels rect_camera None default_title fresh)
    as (self0 & m0 & Hinit0 & _ & Hpc0 & _).
  split.
  - intros H.
    destruct (H rect_camera None default_title fresh 0%nat 0 0 1)
      as (self & m' & pc & p & s & Hinit & Hpc & Hp & _ & _ & _ & Harea);
      try reflexivity.
    rewrite Hinit0 in Hinit. injection Hinit as -> ->.
    rewrite Hpc0 in Hpc. injection Hpc as <-.
    injection Hp as <-.
    unfold make_patch in Harea. simpl in Harea.
    rewrite sqrt_1 in Harea. lra.
  - exists self0, m0. eexists _, _.
    split; [done|]. split; [done|]. split; [reflexivity|].
    unfold make_patch; simpl. rewrite sqrt_1.
    split; [|lra].
    intros E. injection E as E1 E2. lra.
Qed.

(** C3.  The rectangular branch does not build the square that the
    sentence describes, and that the hexagonal branch builds for its
    shape: for every pixel of positive area the square has its lower left
    corner, not its centre, at (x_i, y_i), its centre at
    (x_i + sqrt(area_i), y_i + sqrt(area_i)), and it covers 4 * area_i
    instead of area_i. *)
Theorem rectangular_pixel_defect (g : CameraGeometry) (ax : option nat)
    (title : string) (m : Mpl) (i : nat) (xx yy aa : R) :
  String.prefix "hex" (pix_type g) = false ->
  value (pix_x g) !! i = Some xx ->
  value (pix_y g) !! i = Some yy ->
  pix_area g !! i = Some aa ->
  0 < aa ->
  exists self m' pc p,
    __init__ g ax title m = (m', Returns self)
    /\ mpl_collections m' !! pixels self = Some pc
    /\ pc_patches pc !! i = Some p
    /\ patch_center p = (xx + sqrt aa, yy + sqrt aa)
    /\ patch_center p ≠ (xx, yy)
    /\ patch_area p = 4 * aa
    /\ patch_area p ≠ aa.
Proof.
  intros Hrect Hx Hy Ha Hpos.
  destruct (init_pixels g ax title m) as (self & m' & Hinit & Hgeom & Hpc & _).
  exists self, m', (mkPatchCollection (pixel_patches g) plt_cm_jet 0 None),
    (make_patch (pix_type g) xx yy aa).
  split; [done|]. split; [done|].
  split; [by apply pixel_patches_lookup|].
  unfold make_patch. rewrite Hrect. cbv zeta. simpl.
  pose proof (sqrt_lt_R0 aa Hpos) as Hs.
  pose proof (sqrt_sqrt aa (Rlt_le _ _ Hpos)) as Hsq.
  assert (Harea : 2 * sqrt aa * (2 * sqrt aa) = 4 * aa)
    by (replace (2 * sqrt aa * (2 * sqrt aa))
          with (4 * (sqrt aa * sqrt aa)) by lra; by rewrite Hsq).
  split; [f_equal; lra|].
  split; [intros E; injection E as E1 E2; lra|].
  split; [done|]. lra.
Qed.

Lemma rectangular_pixel_defect_witness :
  exists self m' pc p,
    __init__ rect_camera None default_title fresh = (m', Returns self)
    /\ mpl_collections m' !! pixels self = Some pc
    /\ pc_patches pc !! 0%nat = Some p
    /\ patch_center p = (0 + sqrt 1, 0 + sqrt 1)
    /\ patch_center p ≠ (0, 0)
    /\ patch_area p = 4 * 1
    /\ patch_area p ≠ 1.
Proof.
  apply (rectangular_pixel_defect rect_camera None default_title fresh
           0 0 0 1); try reflexivity. lra.
Defined.

(** What construction builds at [rect_camera]: the square spans from the
    pixel position to (2, 2). *)
Lemma rect_camera_square :
  pixel_patches rect_camera = [Rectangle (0, 0) 2 2 0 true]
  /\ patch_center (Rectangle (0, 0) 2 2 0 true) = (1, 1)
  /\ patch_area (Rectangle (0, 0) 2 2 0 true) = 4.
Proof.
  split; [|split].
  - unfold pixel_patches, make_patch; simpl.
    rewrite sqrt_1, np_radians_0. do 2 f_equal; lra.
  - simpl. f_equal; lra.
  - simpl. lra.
Qed.

(** ** Strings *)

Lemma string_app_assoc (s1 s2 s3 : string) :
  (s1 +:+ s2) +:+ s3 = s1 +:+ s2 +:+ s3.
Proof.
  induction s1 as [|c s1 IH]; [done|].
  change (String c ((s1 +:+ s2) +:+ s3) = String c (s1 +:+ s2 +:+ s3)).
  by rewrite IH.
Qed.

Lemma string_app_empty_r (s : string) : s +:+ "" = s.
Proof.
  induction s as [|c s IH]; [done|].
  change (String c (s +:+ "") = String c s). by rewrite IH.
Qed.

Lemma shape_message_mentions_image (a b : list nat) :
  mentions (shape_message a b) (str_tuple a).
Proof. unfold mentions, shape_message. eauto. Qed.

Lemma shape_message_mentions_geometry (a b : list nat) :
  mentions (shape_message a b) (str_tuple b).
Proof.
  exists ("Image has a different shape " +:+ str_tuple a
            +:+ " than the" +:+ "given CameraGeometry "), "".
  unfold shape_message.
  by rewrite string_app_empty_r, !string_app_assoc.
Qed.

(** ** set_image *)

(** What [plt.draw()] leaves. *)
Lemma plt_draw_eq (m : Mpl) :
  plt_draw m
  = (mkMpl (mpl_axes m) (mpl_collections m) (mpl_gca m)
       (Some (current_figure m))
       (match mpl_gcf m with
        | Some _ => mpl_figures m
        | None => S (mpl_figures m)
        end)
       (mpl_connections m)
       (mpl_drawn m
          ++ [mkDrawing (current_figure m) (mpl_axes m) (mpl_collections m)]),
     Returns tt).
Proof.
  unfold plt_draw, plt_gcf, current_figure.
  destruct (mpl_gcf m) as [f|] eqn:E; simpl; by rewrite ?E.
Qed.

Lemma plt_draw_store (m : Mpl) :
  mpl_axes (store_after plt_draw m) = mpl_axes m
  /\ mpl_collections (store_after plt_draw m) = mpl_collections m
  /\ mpl_gca (store_after plt_draw m) = mpl_gca m
  /\ mpl_connections (store_after plt_draw m) = mpl_connections m
  /\ mpl_drawn (store_after plt_draw m)
     = mpl_drawn m
         ++ [mkDrawing (current_figure m) (mpl_axes m) (mpl_collections m)]
  /\ mpl_draws (store_after plt_draw m) = S (mpl_draws m).
Proof.
  unfold store_after, mpl_draws. rewrite plt_draw_eq. simpl.
  repeat split. rewrite length_app. simpl. lia.
Qed.

(** The collection after its array was set and pyplot redrew. *)
Lemma set_array_lookup (h : nat) (image : list R) (m : Mpl)
    (pc : PatchCollection) :
  mpl_collections m !! h = Some pc ->
  mpl_collections
    (store_after plt_draw (store_after (PatchCollection_set_array h image) m))
    !! h = Some (pc_with_array image pc).
Proof.
  intros Hpc.
  destruct (plt_draw_store (store_after (PatchCollection_set_array h image) m))
    as (_ & -> & _).
  unfold store_after; simpl. by rewrite list_lookup_alter_eq, Hpc.
Qed.

Lemma shape_neq_length {A B : Type} (a : list A) (b : list B) :
  shape a ≠ shape b <-> length a ≠ length b.
Proof. unfold shape. split; intros H E; apply H; congruence. Qed.

Lemma set_image_mismatch (self : CameraDisplay) (image : list R) (m : Mpl) :
  length image ≠ npix (geom self) ->
  set_image self image m
  = (m, Raises (ValueError
                  (shape_message (shape image)
                     (shape (value (pix_x (geom self))))))).
Proof.
  intros H. unfold set_image.
  rewrite bool_decide_eq_true_2; [done|]. by apply shape_neq_length.
Qed.

Lemma set_image_match (self : CameraDisplay) (image : list R) (m : Mpl) :
  length image = npix (geom self) ->
  set_image self image m
  = (store_after plt_draw
       (store_after (PatchCollection_set_array (pixels self) image) m),
     Returns RNone).
Proof.
  intros H. unfold set_image.
  rewrite bool_decide_eq_false_2
    by (rewrite shape_neq_length; unfold npix in H; congruence).
  unfold bind, store_after, PatchCollection_set_array, ret.
  by rewrite !plt_draw_eq.
Qed.

(** C1.  [set_image] compares the shape of the image with the shape of the
    geometry's x sequence, (N,) for a geometry of N pixels.  An image
    whose length is not N raises the [ValueError] (the module's shape
    mismatch error) whose message is built from both shapes and states
    each of them; an image of length N raises no error. *)
Theorem set_image_shape_mismatch (self : CameraDisplay) (image : list R)
    (m : Mpl) :
  (length image ≠ npix (geom self) ->
   exists msg,
     result_of (set_image self image) m = Raises (ValueError msg)
     /\ msg = shape_message [length image] [npix (geom self)]
     /\ mentions msg (str_tuple (shape image))
     /\ mentions msg (str_tuple (shape (value (pix_x (geom self))))))
  /\ (length image = npix (geom self) ->
      forall e, result_of (set_image self image) m ≠ Raises e).
Proof.
  split; intros H.
  - eexists. unfold result_of. rewrite set_image_mismatch by done. simpl.
    split; [done|]. split; [done|].
    split;
      [apply shape_message_mentions_image
      |apply shape_message_mentions_geometry].
  - intros e. unfold result_of. by rewrite set_image_match.
Qed.

(** C8.  A [set_image] that fails on the length of the image leaves the
    whole store as it was: the collections with their shapes and values,
    the axes with their overlays, and the count of redraws. *)
Theorem set_image_failure_keeps_store (self : CameraDisplay)
    (image : list R) (m : Mpl) :
  length image ≠ npix (geom self) ->
  store_after (set_image self image) m = m
  /\ exists msg, result_of (set_image self image) m = Raises (ValueError msg).
Proof.
  intros H. unfold store_after, result_of.
  rewrite set_image_mismatch by done. simpl. eauto.
Qed.



Lemma hex_init :
  __init__ hex_camera None default_title fresh
  = (hex_store, Returns hex_display).
Proof. reflexivity. Qed.

Lemma hex_store_pixels :
  mpl_collections hex_store !! pixels hex_display
  = Some (mkPatchCollection (pixel_patches hex_camera) plt_cm_jet 0 None).
Proof. reflexivity. Qed.

Lemma set_image_shape_mismatch_witness :
  (exists msg,
     result_of (set_image hex_display [7; 8; 9]) hex_store
     = Raises (ValueError msg)
     /\ msg = shape_message [3%nat] [2%nat]
     /\ mentions msg "(3,)"
     /\ mentions msg "(2,)")
  /\ (forall e,
        result_of (set_image hex_display [7; 8]) hex_store ≠ Raises e).
Proof.
  split.
  - apply (proj1 (set_image_shape_mismatch hex_display [7; 8; 9] hex_store)).
    unfold npix; simpl; lia.
  - apply (proj2 (set_image_shape_mismatch hex_display [7; 8] hex_store)).
    reflexivity.
Defined.

Lemma set_image_failure_keeps_store_witness :
  store_after (set_image hex_display [7; 8; 9]) hex_store = hex_store
  /\ exists msg,
       result_of (set_image hex_display [7; 8; 9]) hex_store
       = Raises (ValueError msg).
Proof.
  apply (set_image_failure_keeps_store hex_display [7; 8; 9] hex_store).
  unfold npix; simpl; lia.
Defined.


(** ** set_cmap *)

Lemma fmap_alter_same {A B : Type} (p : A -> B) (f : A -> A) (i : nat)
    (l : list A) :
  (forall x, p (f x) = p x) -> p <$> alter f i l = p <$> l.
Proof.
  intros Hp. revert i.
  induction l as [|x l IH]; intros [|i]; simpl; [done|done| |].
  - by rewrite Hp.
  - f_equal. apply IH.
Qed.

Lemma same_but_cmap_refl (h : nat) (m : Mpl) : same_but_cmap h m m.
Proof. by repeat split. Qed.

Lemma same_but_cmap_trans (h : nat) (m1 m2 m3 : Mpl) :
  same_but_cmap h m1 m2 -> same_but_cmap h m2 m3 -> same_but_cmap h m1 m3.
Proof.
  intros (A1 & B1 & C1 & D1 & E1 & J1 & K1 & F1 & G1 & H1 & I1)
         (A2 & B2 & C2 & D2 & E2 & J2 & K2 & F2 & G2 & H2 & I2).
  repeat split; try congruence.
  intros h' Hh'. rewrite I2, I1; done.
Qed.

Lemma with_cmap_same_but_cmap (h : nat) (c : Colormap) (m : Mpl) :
  same_but_cmap h m (with_collections (alter (pc_with_cmap c) h) m).
Proof.
  repeat split; simpl; try (by apply fmap_alter_same).
  intros h' Hh'. by apply list_lookup_alter_ne.
Qed.

Lemma set_cmap_step (cmap_registry : string -> option Colormap)
    (self : CameraDisplay) (c : cmap_arg) (m : Mpl) :
  same_but_cmap (pixels self) m
    (store_after (set_cmap cmap_registry self c) m).
Proof.
  unfold store_after, set_cmap, bind, PatchCollection_set_cmap.
  destruct c as [c'|name]; simpl.
  - apply with_cmap_same_but_cmap.
  - destruct (cmap_registry name); simpl.
    + apply with_cmap_same_but_cmap.
    + apply same_but_cmap_refl.
Qed.

(** C9.  Whatever colour maps [set_cmap] is called with, once or in a
    row, the store it leaves differs from the one before at most in the
    colour map of the display's collection: the number of shapes, the
    shapes with their positions and sizes, the values set by an earlier
    [set_image], the other collections, the axes and the overlays are
    unchanged. *)
Theorem set_cmap_changes_only_cmap
    (cmap_registry : string -> option Colormap) (self : CameraDisplay)
    (cs : list cmap_arg) (m : Mpl) :
  same_but_cmap (pixels self) m (set_cmaps cmap_registry self cs m)
  /\ length (mpl_collections (set_cmaps cmap_registry self cs m))
     = length (mpl_collections m)
  /\ forall pc,
       mpl_collections m !! pixels self = Some pc ->
       exists pc',
         mpl_collections (set_cmaps cmap_registry self cs m) !! pixels self
         = Some pc'
         /\ pc_patches pc' = pc_patches pc
         /\ pc_array pc' = pc_array pc.
Proof.
  assert (Hsame : same_but_cmap (pixels self) m
                    (set_cmaps cmap_registry self cs m)).
  { unfold set_cmaps. revert m.
    induction cs as [|c cs IH]; intros m; simpl.
    - apply same_but_cmap_refl.
    - eapply same_but_cmap_trans; [apply set_cmap_step|apply IH]. }
  split; [done|].
  destruct Hsame as (_ & _ & _ & _ & _ & _ & _ & Hp & Ha & _ & _).
  split.
  - apply (f_equal length) in Hp. by rewrite !length_fmap in Hp.
  - intros pc Hpc.
    apply (f_equal (.!! pixels self)) in Hp.
    apply (f_equal (.!! pixels self)) in Ha.
    rewrite !list_lookup_fmap, Hpc in Hp.
    rewrite !list_lookup_fmap, Hpc in Ha.
    destruct (mpl_collections _ !! pixels self) as [pc'|]; [|done].
    exists pc'. simpl in *. split; [done|]. split; congruence.
Qed.

(** What a successful [set_cmap] does change. *)
Lemma set_cmap_sets_cmap (cmap_registry : string -> option Colormap)
    (self : CameraDisplay) (c : Colormap) (m : Mpl) (pc : PatchCollection) :
  mpl_collections m !! pixels self = Some pc ->
  set_cmap cmap_registry self (CmapObject c) m
  = (with_collections (alter (pc_with_cmap c) (pixels self)) m, Returns RNone)
  /\ mpl_collections
       (store_after (set_cmap cmap_registry self (CmapObject c)) m)
       !! pixels self
     = Some (pc_with_cmap c pc).
Proof.
  intros Hpc. split; [done|].
  unfold store_after; simpl. by rewrite list_lookup_alter_eq, Hpc.
Qed.

Lemma set_cmap_changes_only_cmap_witness :
  same_but_cmap (pixels hex_display) hex_store
    (set_cmaps (fun _ => None) hex_display
       [CmapObject (cm "hot"); CmapName "nope"; CmapObject (cm "gray")]
       hex_store)
  /\ length
       (mpl_collections
          (set_cmaps (fun _ => None) hex_display
             [CmapObject (cm "hot"); CmapName "nope"; CmapObject (cm "gray")]
             hex_store))
     = length (mpl_collections hex_store)
  /\ forall pc,
       mpl_collections hex_store !! pixels hex_display = Some pc ->
       exists pc',
         mpl_collections
           (set_cmaps (fun _ => None) hex_display
              [CmapObject (cm "hot"); CmapName "nope"; CmapObject (cm "gray")]
              hex_store) !! pixels hex_display
         = Some pc'
         /\ pc_patches pc' = pc_patches pc
         /\ pc_array pc' = pc_array pc.
Proof.
  exact (set_cmap_changes_only_cmap (fun _ => None) hex_display
           [CmapObject (cm "hot"); CmapName "nope"; CmapObject (cm "gray")]
           hex_store).
Defined.

(** ** add_ellipse *)

Lemma Ellipse_call_ok (patch_update : kwargs_t -> option exn) (xy : R * R)
    (w h a : R) (f : bool) (kwargs : kwargs_t) (m : Mpl) :
  clashes ellipse_keywords kwargs = false ->
  patch_update kwargs = None ->
  Ellipse_call patch_update xy w h a f kwargs m
  = (m, Returns (Ellipse xy w h a f kwargs)).
Proof.
  intros Hc Hu. unfold Ellipse_call.
  by rewrite Hc, Hu.
Qed.

(** A call of [Ellipse] that raises leaves the store as it was. *)
Lemma Ellipse_call_store (patch_update : kwargs_t -> option exn) (xy : R * R)
    (w h a : R) (f : bool) (kwargs : kwargs_t) (m : Mpl) :
  fst (Ellipse_call patch_update xy w h a f kwargs m) = m.
Proof.
  unfold Ellipse_call.
  destruct (clashes _ kwargs); [done|].
  by destruct (patch_update kwargs).
Qed.

(** What [add_ellipse] does when the [Ellipse] call takes its keywords:
    the patch is added to the axes, then pyplot redraws. *)
Lemma add_ellipse_ok (patch_update : kwargs_t -> option exn)
    (self : CameraDisplay) (centroid : R * R) (len wid angle : R)
    (asymmetry : pyvalue) (kwargs : kwargs_t) (m : Mpl) :
  clashes add_ellipse_parameters kwargs = false ->
  clashes ellipse_keywords kwargs = false ->
  patch_update kwargs = None ->
  add_ellipse patch_update self centroid len wid angle asymmetry kwargs m
  = (store_after plt_draw
       (store_after
          (Axes_add_patch (axes self)
             (Ellipse centroid wid len (np_degrees angle) false kwargs)) m),
     Returns (RPatch (Ellipse centroid wid len (np_degrees angle) false
                        kwargs))).
Proof.
  intros Hp Hc Hu. unfold add_ellipse, bind. rewrite Hp.
  rewrite (Ellipse_call_ok _ _ _ _ _ _ _ _ Hc Hu).
  unfold store_after, Axes_add_patch, on_axes, ret.
  by rewrite !plt_draw_eq.
Qed.

(** The axes after a patch was added and pyplot redrew. *)
Lemma add_patch_lookup (a : nat) (p : Patch) (m : Mpl) (ax : Axes) :
  mpl_axes m !! a = Some ax ->
  mpl_axes (store_after plt_draw (store_after (Axes_add_patch a p) m)) !! a
  = Some (ax_with_patches (fun ps => ps ++ [p]) ax).
Proof.
  intros Hax.
  destruct (plt_draw_store (store_after (Axes_add_patch a p) m))
    as (-> & _).
  unfold store_after; simpl.
  by rewrite list_lookup_alter_eq, Hax.
Qed.

(** C6.  On a store that holds the display's axes, with style keywords
    that name no parameter of [add_ellipse] and that the [Ellipse] call
    takes, [add_ellipse] builds the unfilled
    ellipse with centre [centroid], height (the extent of the axis its
    docstring calls the major axis) [length], width (the minor axis)
    [width] and rotation [angle * 180 / PI] degrees, carrying the style
    keywords; it appends it to the patches of the axes, after the ones
    that are there and without touching the collections, asks for a
    redraw and returns it. *)
Theorem add_ellipse_adds_overlay (patch_update : kwargs_t -> option exn)
    (self : CameraDisplay) (centroid : R * R) (len wid angle : R)
    (asymmetry : pyvalue) (kwargs : kwargs_t) (m : Mpl) (ax : Axes) :
  mpl_axes m !! axes self = Some ax ->
  clashes add_ellipse_parameters kwargs = false ->
  clashes ellipse_keywords kwargs = false ->
  patch_update kwargs = None ->
  exists m' e ax',
    add_ellipse patch_update self centroid len wid angle asymmetry kwargs m
    = (m', Returns (RPatch e))
    /\ e = Ellipse centroid wid len (angle * 180 / PI) false kwargs
    /\ patch_center e = centroid
    /\ mpl_axes m' !! axes self = Some ax'
    /\ ax_patches ax' = ax_patches ax ++ [e]
    /\ ax_collections ax' = ax_collections ax
    /\ (forall a, a ≠ axes self -> mpl_axes m' !! a = mpl_axes m !! a)
    /\ mpl_collections m' = mpl_collections m
    /\ mpl_draws m' = S (mpl_draws m).
Proof.
  intros Hax Hp Hc Hu.
  rewrite (add_ellipse_ok _ _ _ _ _ _ asymmetry _ m Hp Hc Hu).
  destruct (plt_draw_store
              (store_after
                 (Axes_add_patch (axes self)
                    (Ellipse centroid wid len (np_degrees angle) false
                       kwargs)) m))
    as (Ha & Hcs & _ & _ & _ & Hn).
  eexists _, _, _.
  split; [reflexivity|].
  split; [reflexivity|].
  split; [reflexivity|].
  split; [by apply add_patch_lookup|].
  split; [reflexivity|].
  split; [reflexivity|].
  split; [|split].
  - intros a Hne. rewrite Ha. unfold store_after; simpl.
    by apply list_lookup_alter_ne.
  - by rewrite Hcs.
  - by rewrite Hn.
Qed.

(** The extents of the ellipse are the longer and the shorter axis in
    this order when [width] is not above [length]. *)
Lemma add_ellipse_major_minor (len wid : R) :
  wid <= len -> Rmax wid len = len /\ Rmin wid len = wid.
Proof. intros H. split; [by apply Rmax_right|by apply Rmin_left]. Qed.

Lemma hex_store_axes : mpl_axes hex_store !! axes hex_display = Some hex_axes.
Proof. reflexivity. Qed.

Lemma red_outline_ellipse : clashes ellipse_keywords red_outline = false.
Proof. vm_compute. reflexivity. Qed.

Lemma red_outline_parameters :
  clashes add_ellipse_parameters red_outline = false.
Proof. vm_compute. reflexivity. Qed.

Lemma red_outline_add_ellipse :
  clashes add_ellipse_keywords red_outline = false.
Proof. vm_compute. reflexivity. Qed.

Lemma add_ellipse_adds_overlay_witness :
  exists m' e ax',
    add_ellipse (fun _ => None) hex_display (1, 2) 4 2 0 default_asymmetry
      red_outline hex_store
    = (m', Returns (RPatch e))
    /\ e = Ellipse (1, 2) 2 4 (0 * 180 / PI) false red_outline
    /\ patch_center e = (1, 2)
    /\ mpl_axes m' !! axes hex_display = Some ax'
    /\ ax_patches ax' = ax_patches hex_axes ++ [e]
    /\ ax_collections ax' = ax_collections hex_axes
    /\ (forall a, a ≠ axes hex_display ->
                  mpl_axes m' !! a = mpl_axes hex_store !! a)
    /\ mpl_collections m' = mpl_collections hex_store
    /\ mpl_draws m' = S (mpl_draws hex_store).
Proof.
  apply (add_ellipse_adds_overlay (fun _ => None) hex_display (1, 2) 4 2 0
           default_asymmetry red_outline hex_store hex_axes).
  - reflexivity.
  - exact red_outline_parameters.
  - exact red_outline_ellipse.
  - reflexivity.
Defined.

(** ** overlay_moments *)

Lemma not_is_Some_None {A : Type} : bool_decide (is_Some (@None A)) = false.
Proof. apply bool_decide_eq_false_2. by intros [? ?]. Qed.

(** The keywords that [overlay_moments] hands on name no parameter of
    [add_ellipse] once the asymmetry is taken out. *)
Lemma add_ellipse_kw_binds (kwargs : kwargs_t) :
  clashes add_ellipse_keywords kwargs = false ->
  clashes add_ellipse_parameters (delete "asymmetry"%string kwargs) = false.
Proof.
  unfold clashes, add_ellipse_keywords, add_ellipse_parameters. simpl.
  intros H.
  rewrite (lookup_delete_ne kwargs "asymmetry" "self")%string by done.
  rewrite (lookup_delete_ne kwargs "asymmetry" "centroid")%string by done.
  rewrite (lookup_delete_ne kwargs "asymmetry" "length")%string by done.
  rewrite (lookup_delete_ne kwargs "asymmetry" "width")%string by done.
  rewrite (lookup_delete_ne kwargs "asymmetry" "angle")%string
    by discriminate.
  rewrite (lookup_delete_eq kwargs "asymmetry"%string).
  rewrite (@not_is_Some_None pyvalue). exact H.
Qed.

(** [add_ellipse] gives back a patch whenever it returns. *)
Lemma add_ellipse_kw_result (patch_update : kwargs_t -> option exn)
    (self : CameraDisplay) (centroid : R * R) (len wid angle : R)
    (kwargs : kwargs_t) (m : Mpl) :
  (exists e, add_ellipse_kw patch_update self centroid len wid angle kwargs m
             = (m, Raises e))
  \/ (exists p, result_of (add_ellipse_kw patch_update self centroid len wid
                             angle kwargs) m = Returns (RPatch p)).
Proof.
  unfold result_of, add_ellipse_kw, add_ellipse, bind, Ellipse_call.
  destruct (clashes add_ellipse_keywords kwargs); [left; eauto|].
  destruct (clashes add_ellipse_parameters (delete "asymmetry"%string kwargs));
    [left; eauto|].
  destruct (clashes ellipse_keywords (delete "asymmetry"%string kwargs));
    [left; eauto|].
  destruct (patch_update (delete "asymmetry"%string kwargs));
    [left; eauto|].
  right. unfold Axes_add_patch, on_axes, ret, raise.
  rewrite !plt_draw_eq. simpl. eauto.
Qed.

(** The call does not return when the library raises on the style. *)
Lemma add_ellipse_kw_rejected (patch_update : kwargs_t -> option exn)
    (self : CameraDisplay) (centroid : R * R) (len wid angle : R)
    (kwargs : kwargs_t) (m : Mpl) :
  is_Some (patch_update (delete "asymmetry"%string kwargs)) ->
  exists e, add_ellipse_kw patch_update self centroid len wid angle kwargs m
            = (m, Raises e).
Proof.
  intros [e0 He0].
  unfold add_ellipse_kw, add_ellipse, bind, Ellipse_call.
  destruct (clashes add_ellipse_keywords kwargs); [eauto|].
  destruct (clashes add_ellipse_parameters (delete "asymmetry"%string kwargs));
    [eauto|].
  destruct (clashes ellipse_keywords (delete "asymmetry"%string kwargs));
    [eauto|].
  rewrite He0. eauto.
Qed.

Lemma overlay_moments_unfold (patch_update : kwargs_t -> option exn)
    (self : CameraDisplay) (momparams : MomentParameters.t)
    (style : kwargs_t) (m : Mpl) :
  overlay_moments patch_update self momparams style m
  = if clashes overlay_moments_parameters style
    then (m, Raises TypeError)
    else
      match add_ellipse_from_moments patch_update self momparams style m with
      | (m', Returns _) => (m', Returns RNone)
      | (m', Raises e) => (m', Raises e)
      end.
Proof.
  unfold overlay_moments. by destruct (clashes overlay_moments_parameters style).
Qed.

(** A style that repeats a parameter of [overlay_moments] but no keyword
    of its [add_ellipse] call has the key [momparams]. *)
Lemma overlay_clash_momparams (style : kwargs_t) :
  clashes overlay_moments_parameters style = true ->
  clashes add_ellipse_keywords style = false ->
  is_Some (style !! "momparams"%string).
Proof.
  unfold clashes, overlay_moments_parameters, add_ellipse_keywords. simpl.
  intros H1 H2.
  apply orb_false_elim in H2 as [H2 _]. rewrite H2 in H1. simpl in H1.
  rewrite orb_false_r in H1. by apply bool_decide_eq_true_1 in H1.
Qed.

(** C7.  For every moment parameters and every style whose keywords do
    not include [momparams] itself, or that the plotting library does not
    take, [overlay_moments(momparams, **style)] leaves the store that the
    call [add_ellipse(centroid=(cen_x, cen_y), length=length,
    width=width, angle=psi, **style)] leaves, so the same ellipse with the
    same centre, extents, rotation and style is on the axes, and it
    returns when that call returns; without the key [momparams] it also
    raises exactly the errors of that call. *)
Theorem overlay_moments_same_overlay
    (patch_update : kwargs_t -> option exn) (self : CameraDisplay)
    (momparams : MomentParameters.t) (style : kwargs_t) (m : Mpl) :
  style !! "momparams"%string = None
  \/ is_Some (patch_update (delete "asymmetry"%string style)) ->
  store_after (overlay_moments patch_update self momparams style) m
  = store_after (add_ellipse_from_moments patch_update self momparams style) m
  /\ ((exists r,
         result_of (overlay_moments patch_update self momparams style) m
         = Returns r)
      <-> (exists p,
             result_of
               (add_ellipse_from_moments patch_update self momparams style) m
             = Returns (RPatch p)))
  /\ (style !! "momparams"%string = None ->
      forall e,
        result_of (overlay_moments patch_update self momparams style) m
        = Raises e
        <-> result_of
              (add_ellipse_from_moments patch_update self momparams style) m
            = Raises e).
Proof.
  intros Hstyle.
  unfold store_after, result_of. rewrite overlay_moments_unfold.
  destruct (clashes overlay_moments_parameters style) eqn:Ho.
  - (* the call of [overlay_moments] raises *)
    assert (Hdirect : exists e,
               add_ellipse_from_moments patch_update self momparams style m
               = (m, Raises e)
               /\ (style !! "momparams"%string = None -> e = TypeError)).
    { unfold add_ellipse_from_moments.
      destruct (clashes add_ellipse_keywords style) eqn:Hk.
      - exists TypeError. unfold add_ellipse_kw. by rewrite Hk.
      - destruct (overlay_clash_momparams style Ho Hk) as [v Hv].
        destruct Hstyle as [Hnone|Hrej]; [congruence|].
        destruct (add_ellipse_kw_rejected patch_update self
                    (MomentParameters.cen_x momparams,
                     MomentParameters.cen_y momparams)
                    (MomentParameters.length momparams)
                    (MomentParameters.width momparams)
                    (MomentParameters.psi momparams) style m
                    Hrej) as [e He].
        exists e. split; [exact He|]. congruence. }
    destruct Hdirect as (e & -> & He). simpl.
    split; [done|]. split.
    + split; intros [x Hx]; done.
    + intros Hnone e'. rewrite (He Hnone). done.
  - destruct (add_ellipse_kw_result patch_update self
                (MomentParameters.cen_x momparams,
                 MomentParameters.cen_y momparams)
                (MomentParameters.length momparams)
                (MomentParameters.width momparams)
                (MomentParameters.psi momparams) style m) as [[e He]|[p Hp]];
      unfold result_of in *; fold (add_ellipse_from_moments patch_update self
                                     momparams style) in *.
    + rewrite He. simpl. split; [done|]. split; [|done].
      split; intros [x Hx]; done.
    + destruct (add_ellipse_from_moments _ _ _ _ m) as [m' [r|e']];
        simpl in *; [|done].
      split; [done|]. split; [|split; done].
      split; intros _; eauto.
Qed.

Lemma red_outline_overlay :
  clashes overlay_moments_parameters red_outline = false.
Proof. vm_compute. reflexivity. Qed.

Lemma red_outline_no_momparams : red_outline !! "momparams"%string = None.
Proof. vm_compute. reflexivity. Qed.

Lemma overlay_moments_same_overlay_witness :
  store_after (overlay_moments (fun _ => None) hex_display tilted_moments
                 red_outline) hex_store
  = store_after (add_ellipse_from_moments (fun _ => None) hex_display
                   tilted_moments red_outline) hex_store
  /\ ((exists r,
         result_of (overlay_moments (fun _ => None) hex_display
                      tilted_moments red_outline) hex_store
         = Returns r)
      <-> (exists p,
             result_of (add_ellipse_from_moments (fun _ => None) hex_display
                          tilted_moments red_outline) hex_store
             = Returns (RPatch p)))
  /\ (red_outline !! "momparams"%string = None ->
      forall e,
        result_of (overlay_moments (fun _ => None) hex_display
                     tilted_moments red_outline) hex_store
        = Raises e
        <-> result_of (add_ellipse_from_moments (fun _ => None) hex_display
                         tilted_moments red_outline) hex_store
            = Raises e).
Proof.
  apply (overlay_moments_same_overlay (fun _ => None) hex_display
           tilted_moments red_outline hex_store).
  left. exact red_outline_no_momparams.
Defined.

(** X13.  The ellipse of [overlay_moments], when the style keywords name
    no parameter of the two calls and are taken: it is appended to the
    patches of the axes, unfilled, with centre (cen_x, cen_y), height
    [length], width [width] and rotation [psi * 180 / PI] degrees; the
    key [asymmetry] is [add_ellipse]'s parameter, the other style
    keywords reach the patch. *)
Lemma overlay_moments_ellipse (patch_update : kwargs_t -> option exn)
    (self : CameraDisplay) (momparams : MomentParameters.t)
    (style : kwargs_t) (m : Mpl) (ax : Axes) :
  mpl_axes m !! axes self = Some ax ->
  clashes overlay_moments_parameters style = false ->
  clashes add_ellipse_keywords style = false ->
  clashes ellipse_keywords (delete "asymmetry"%string style) = false ->
  patch_update (delete "asymmetry"%string style) = None ->
  exists m' ax',
    overlay_moments patch_update self momparams style m = (m', Returns RNone)
    /\ mpl_axes m' !! axes self = Some ax'
    /\ ax_patches ax'
       = ax_patches ax
           ++ [Ellipse
                 (MomentParameters.cen_x momparams,
                  MomentParameters.cen_y momparams)
                 (MomentParameters.width momparams)
                 (MomentParameters.length momparams)
                 (MomentParameters.psi momparams * 180 / PI) false
                 (delete "asymmetry"%string style)].
Proof.
  intros Hax Ho Hk Hc Hu.
  rewrite overlay_moments_unfold, Ho.
  unfold add_ellipse_from_moments, add_ellipse_kw.
  rewrite Hk.
  rewrite (add_ellipse_ok _ _ _ _ _ _ _ _ m (add_ellipse_kw_binds _ Hk) Hc Hu).
  eexists _, _. split; [reflexivity|].
  split; [by apply add_patch_lookup|reflexivity].
Qed.

(** C10.  [overlay_moments] never returns anything but [None]; when the
    style keywords name no parameter of the two calls and are taken, so
    that the [add_ellipse] call it makes returns the ellipse it created,
    [overlay_moments] returns [None] all the same: the patch does not
    reach its caller. *)
Theorem overlay_moments_returns_None
    (patch_update : kwargs_t -> option exn) (self : CameraDisplay)
    (momparams : MomentParameters.t) (style : kwargs_t) (m : Mpl) :
  (forall r,
     result_of (overlay_moments patch_update self momparams style) m
     = Returns r -> r = RNone)
  /\ (clashes overlay_moments_parameters style = false ->
      clashes add_ellipse_keywords style = false ->
      clashes ellipse_keywords (delete "asymmetry"%string style) = false ->
      patch_update (delete "asymmetry"%string style) = None ->
      result_of (overlay_moments patch_update self momparams style) m
      = Returns RNone
      /\ exists p,
           result_of
             (add_ellipse_from_moments patch_update self momparams style) m
           = Returns (RPatch p)).
Proof.
  unfold result_of. rewrite overlay_moments_unfold. split.
  - intros r.
    destruct (clashes overlay_moments_parameters style); [done|].
    destruct (add_ellipse_from_moments _ _ _ _ m) as [m' [r'|e]]; simpl;
      congruence.
  - intros Ho Hk Hc Hu. rewrite Ho.
    unfold add_ellipse_from_moments, add_ellipse_kw.
    rewrite Hk.
    rewrite (add_ellipse_ok _ _ _ _ _ _ _ _ m (add_ellipse_kw_binds _ Hk)
               Hc Hu).
    simpl. eauto.
Qed.

Lemma red_outline_no_asymmetry :
  delete "asymmetry"%string red_outline = red_outline.
Proof. apply delete_id. vm_compute. reflexivity. Qed.

Lemma overlay_moments_returns_None_witness :
  result_of (overlay_moments (fun _ => None) hex_display tilted_moments
               red_outline) hex_store
  = Returns RNone
  /\ exists p,
       result_of (add_ellipse_from_moments (fun _ => None) hex_display
                    tilted_moments red_outline) hex_store
       = Returns (RPatch p).
Proof.
  apply (proj2 (overlay_moments_returns_None (fun _ => None) hex_display
                  tilted_moments red_outline hex_store)).
  - exact red_outline_overlay.
  - exact red_outline_add_ellipse.
  - rewrite red_outline_no_asymmetry. exact red_outline_ellipse.
  - reflexivity.
Defined.

(** X14.  Two calls of [add_ellipse] whose style keywords name no
    parameter and are taken leave both ellipses on the axes, after the
    patches that were there and in the order of the calls: the second
    call does not replace the overlay of the first. *)
Lemma add_ellipse_twice (patch_update : kwargs_t -> option exn)
    (self : CameraDisplay) (c1 c2 : R * R) (l1 w1 a1 l2 w2 a2 : R)
    (s1 s2 : pyvalue) (k1 k2 : kwargs_t) (m : Mpl) (ax : Axes) :
  mpl_axes m !! axes self = Some ax ->
  clashes add_ellipse_parameters k1 = false ->
  clashes ellipse_keywords k1 = false -> patch_update k1 = None ->
  clashes add_ellipse_parameters k2 = false ->
  clashes ellipse_keywords k2 = false -> patch_update k2 = None ->
  exists ax'',
    mpl_axes
      (store_after (add_ellipse patch_update self c2 l2 w2 a2 s2 k2)
         (store_after (add_ellipse patch_update self c1 l1 w1 a1 s1 k1) m))
      !! axes self = Some ax''
    /\ ax_patches ax''
       = ax_patches ax
           ++ [Ellipse c1 w1 l1 (a1 * 180 / PI) false k1;
               Ellipse c2 w2 l2 (a2 * 180 / PI) false k2].
Proof.
  intros Hax Hp1 Hc1 Hu1 Hp2 Hc2 Hu2.
  unfold store_after at 2.
  rewrite (add_ellipse_ok _ _ _ _ _ _ s1 _ m Hp1 Hc1 Hu1).
  cbn [fst].
  unfold store_after at 1.
  rewrite (add_ellipse_ok _ _ _ _ _ _ s2 _ _ Hp2 Hc2 Hu2).
  cbn [fst].
  eexists. split.
  - apply add_patch_lookup. by apply add_patch_lookup.
  - simpl. by rewrite <- app_assoc.
Qed.

(** ** The handles of a display stay live *)

Lemma init_display_ok (g : CameraGeometry) (ax : option nat) (title : string)
    (m : Mpl) :
  axes_arg_ok ax m ->
  exists self m',
    __init__ g ax title m = (m', Returns self) /\ display_ok self m'.
Proof.
  intros Hok.
  assert (Hstep : forall (l : list Axes) (a : nat) (cs : list PatchCollection)
                         (gca gcf : option nat) (figs : nat),
             is_Some (l !! a) ->
             exists self m',
               (let self_axes := a in
                (self_pixels <- PatchCollection_new (pixel_patches g)
                                  plt_cm_jet 0 ;;
                 Axes_add_collection self_axes self_pixels ;;
                 Axes_set_aspect self_axes "equal" "datalim" ;;
                 Axes_set_title self_axes title ;;
                 Axes_set_xlabel self_axes
                   ("X position (" +:+ unit_str (pix_x g) +:+ ")") ;;
                 Axes_set_ylabel self_axes
                   ("Y position (" +:+ unit_str (pix_y g) +:+ ")") ;;
                 Axes_autoscale_view self_axes ;;
                 canvas_mpl_connect self_axes "pick_event"
                   (on_pick_of
                      (mkCameraDisplay self_axes g self_pixels plt_cm_jet)) ;;
                 ret (mkCameraDisplay self_axes g self_pixels plt_cm_jet))
                  (mkMpl l cs gca gcf figs (mpl_connections m)
                     (mpl_drawn m)))
               = (m', Returns self)
               /\ display_ok self m').
  { intros l a cs gca gcf figs [ax0 Hax0].
    unfold bind, canvas_mpl_connect; simpl.
    rewrite !list_lookup_alter_eq, Hax0; simpl.
    eexists _, _. split; [reflexivity|].
    split; simpl.
    - eexists. rewrite !list_lookup_alter_eq, Hax0; simpl.
      split; [reflexivity|]. simpl. set_solver.
    - eexists. split; [by apply list_lookup_middle|done]. }
  unfold __init__, axes_arg_ok in *.
  destruct ax as [a|].
  - destruct m as [l cs gca gcf figs conns drawn]; simpl in *.
    apply (Hstep l a cs gca gcf figs). by apply lookup_lt_is_Some_2.
  - destruct m as [l cs [a|] [f|] figs conns drawn]; simpl in *.
    + apply (Hstep l a cs (Some a) (Some f) figs).
      by apply lookup_lt_is_Some_2.
    + apply (Hstep l a cs (Some a) None figs). by apply lookup_lt_is_Some_2.
    + apply (Hstep (l ++ [Axes_new f]) (length l) cs
               (Some (length l)) (Some f) figs).
      exists (Axes_new f). by apply list_lookup_middle.
    + apply (Hstep (l ++ [Axes_new figs]) (length l) cs
               (Some (length l)) (Some figs) (S figs)).
      exists (Axes_new figs). by apply list_lookup_middle.
Qed.

Lemma display_ok_draw (self : CameraDisplay) (m : Mpl) :
  display_ok self m -> display_ok self (store_after plt_draw m).
Proof.
  intros Hok. destruct (plt_draw_store m) as (Ha & Hc & _).
  unfold display_ok. by rewrite Ha, Hc.
Qed.

Lemma set_image_display_ok (self : CameraDisplay) (image : list R) (m : Mpl) :
  display_ok self m -> display_ok self (store_after (set_image self image) m).
Proof.
  intros [Hax (pc & Hpc & Hp)].
  destruct (decide (length image = npix (geom self))) as [Hlen|Hlen].
  - unfold store_after at 1. rewrite (set_image_match self image m Hlen).
    cbn [fst]. apply display_ok_draw.
    split; [done|].
    exists (pc_with_array image pc). unfold store_after; simpl.
    by rewrite list_lookup_alter_eq, Hpc.
  - unfold store_after. rewrite (set_image_mismatch self image m Hlen).
    by split; eauto.
Qed.

Lemma set_cmap_display_ok (cmap_registry : string -> option Colormap)
    (self : CameraDisplay) (c : cmap_arg) (m : Mpl) :
  display_ok self m ->
  display_ok self (store_after (set_cmap cmap_registry self c) m).
Proof.
  intros [Hax (pc & Hpc & Hp)].
  destruct (set_cmap_step cmap_registry self c m)
    as (Ha & _ & _ & _ & _ & _ & _ & Hpatches & _).
  split; [by rewrite Ha|].
  apply (f_equal (.!! pixels self)) in Hpatches.
  rewrite !list_lookup_fmap, Hpc in Hpatches.
  destruct (mpl_collections (store_after _ m) !! pixels self)
    as [pc'|] eqn:E; [|done].
  exists pc'. split; [done|]. simpl in Hpatches. congruence.
Qed.

Lemma add_ellipse_display_ok (patch_update : kwargs_t -> option exn)
    (self : CameraDisplay) (centroid : R * R) (len wid angle : R)
    (asymmetry : pyvalue) (kwargs : kwargs_t) (m : Mpl) :
  display_ok self m ->
  display_ok self
    (store_after
       (add_ellipse patch_update self centroid len wid angle asymmetry kwargs)
       m).
Proof.
  intros Hok.
  destruct (clashes add_ellipse_parameters kwargs) eqn:Hp;
    [unfold store_after, add_ellipse; by rewrite Hp|].
  destruct (clashes ellipse_keywords kwargs) eqn:Hc;
    [unfold store_after, add_ellipse, bind, Ellipse_call;
     by rewrite Hp, Hc|].
  destruct (patch_update kwargs) as [e|] eqn:Hu;
    [unfold store_after, add_ellipse, bind, Ellipse_call;
     by rewrite Hp, Hc, Hu|].
  unfold store_after at 1.
  rewrite (add_ellipse_ok _ _ _ _ _ _ asymmetry _ m Hp Hc Hu). cbn [fst].
  apply display_ok_draw.
  destruct Hok as [(ax & Hax & Hin) Hpc].
  split; [|done].
  eexists. unfold store_after; simpl.
  rewrite list_lookup_alter_eq, Hax. by split.
Qed.

(** * Further properties of the display *)

(** ** Construction on sequences of any lengths *)

Lemma zip3_length_min {A B C : Type} (xs : list A) (ys : list B)
    (zs : list C) :
  length (zip3 xs ys zs)
  = Nat.min (Nat.min (length xs) (length ys)) (length zs).
Proof.
  revert ys zs.
  induction xs as [|x0 xs IH]; intros [|y0 ys] [|z0 zs]; simpl; try lia.
  by rewrite IH.
Qed.

(** X1.  Construction does not compare the lengths of the geometry's
    sequences: for any geometry it returns a display, and its collection
    holds as many shapes as the shortest of the x, y and area sequences
    has entries (none for an empty geometry). *)
Theorem init_shape_count (g : CameraGeometry) (ax : option nat)
    (title : string) (m : Mpl) :
  exists self m' pc,
    __init__ g ax title m = (m', Returns self)
    /\ mpl_collections m' !! pixels self = Some pc
    /\ length (pc_patches pc)
       = Nat.min (Nat.min (length (value (pix_x g)))
                    (length (value (pix_y g))))
           (length (pix_area g)).
Proof.
  destruct (init_pixels g ax title m) as (self & m' & Hinit & _ & Hpc & _).
  exists self, m', (mkPatchCollection (pixel_patches g) plt_cm_jet 0 None).
  split; [done|]. split; [done|]. simpl.
  by rewrite pixel_patches_fmap, length_fmap, zip3_length_min.
Qed.

(** X2.  [set_image] measures the image against the x sequence alone.
    When the area sequence is shorter than the x sequence, construction
    builds fewer shapes than there are x positions, and [set_image] then
    takes an image with one value per x position: the collection is left
    with more values than shapes. *)
Theorem set_image_checks_x_only (g : CameraGeometry) (ax : option nat)
    (title : string) (m : Mpl) (image : list R) :
  (length (pix_area g) < length (value (pix_x g)))%nat ->
  length image = length (value (pix_x g)) ->
  exists self m1 m2 pc,
    __init__ g ax title m = (m1, Returns self)
    /\ set_image self image m1 = (m2, Returns RNone)
    /\ mpl_collections m2 !! pixels self = Some pc
    /\ pc_array pc = Some image
    /\ (length (pc_patches pc) < length image)%nat.
Proof.
  intros Hshort Hlen.
  destruct (init_pixels g ax title m) as (self & m1 & Hinit & Hg & Hpc & _).
  exists self, m1. eexists _, _.
  split; [done|].
  split; [apply set_image_match; unfold npix; by rewrite Hg|].
  split.
  - by apply set_array_lookup.
  - split; [done|]. simpl.
    rewrite pixel_patches_fmap, length_fmap, zip3_length_min. lia.
Qed.

Lemma set_image_checks_x_only_witness :
  exists self m1 m2 pc,
    __init__ ragged_camera None default_title fresh = (m1, Returns self)
    /\ set_image self [5; 6; 7] m1 = (m2, Returns RNone)
    /\ mpl_collections m2 !! pixels self = Some pc
    /\ pc_array pc = Some [5; 6; 7]
    /\ (length (pc_patches pc) < length [5; 6; 7])%nat.
Proof.
  apply (set_image_checks_x_only ragged_camera None default_title fresh
           [5; 6; 7]).
  - simpl. lia.
  - reflexivity.
Defined.

(** X3.  The collection that construction makes starts with the colour
    map jet, line width 0 and no array of values, and the display
    remembers the geometry and jet; the collections that were in the
    store keep their handles and contents. *)
Theorem init_collection_state (g : CameraGeometry) (ax : option nat)
    (title : string) (m : Mpl) :
  exists self m' pc,
    __init__ g ax title m = (m', Returns self)
    /\ geom self = g
    /\ cmap self = plt_cm_jet
    /\ mpl_collections m' !! pixels self = Some pc
    /\ pc_cmap pc = plt_cm_jet
    /\ pc_linewidth pc = 0
    /\ pc_array pc = None
    /\ length (mpl_collections m') = S (length (mpl_collections m))
    /\ forall h, (h < length (mpl_collections m))%nat ->
                 mpl_collections m' !! h = mpl_collections m !! h.
Proof.
  destruct (init_collection g ax title m)
    as (self & m' & Hinit & Hg & Hc & Hpix & Hcolls).
  exists self, m', (mkPatchCollection (pixel_patches g) plt_cm_jet 0 None).
  repeat split; try done.
  - rewrite Hcolls, Hpix. by apply list_lookup_middle.
  - rewrite Hcolls, length_app. simpl. lia.
  - intros h Hh. rewrite Hcolls. by apply lookup_app_l.
Qed.

(** ** Construction on given axes *)

(** The whole store that construction leaves when it is given live axes. *)
Lemma init_on_axes (g : CameraGeometry) (a : nat) (title : string) (m : Mpl)
    (ax0 : Axes) :
  mpl_axes m !! a = Some ax0 ->
  __init__ g (Some a) title m
  = (mkMpl
       (<[a := mkAxes (ax_figure ax0)
                 (ax_collections ax0 ++ [length (mpl_collections m)])
                 (ax_patches ax0) ("equal", "datalim")%string title
                 ("X position (" +:+ unit_str (pix_x g) +:+ ")")
                 ("Y position (" +:+ unit_str (pix_y g) +:+ ")")
                 (S (ax_autoscaled ax0))]> (mpl_axes m))
       (mpl_collections m
          ++ [mkPatchCollection (pixel_patches g) plt_cm_jet 0 None])
       (mpl_gca m) (mpl_gcf m) (mpl_figures m)
       (mpl_connections m
          ++ [(ax_figure ax0, "pick_event"%string,
               on_pick_of
                 (mkCameraDisplay a g (length (mpl_collections m))
                    plt_cm_jet))])
       (mpl_drawn m),
     Returns (mkCameraDisplay a g (length (mpl_collections m)) plt_cm_jet)).
Proof.
  intros Hax.
  unfold __init__, bind, canvas_mpl_connect; simpl.
  rewrite !list_lookup_alter_eq, Hax; simpl.
  unfold ret. f_equal. f_equal.
  apply list_eq; intros i.
  destruct (decide (i = a)) as [->|Hne].
  - rewrite !list_lookup_alter_eq, Hax, list_lookup_insert_eq;
      [done|by eapply lookup_lt_Some].
  - by rewrite !list_lookup_alter_ne, list_lookup_insert_ne.
Qed.

(** X4.  Given live axes, construction appends its collection after the
    collections the axes shows, keeps the patches that are on the axes,
    sets the aspect to equal with adjustable datalim, replaces the title
    and the axis labels ("X position (unit)", "Y position (unit)") and
    autoscales once; every other axes is as it was. *)
Theorem init_sets_up_axes (g : CameraGeometry) (a : nat) (title : string)
    (m : Mpl) (ax0 : Axes) :
  mpl_axes m !! a = Some ax0 ->
  exists self m' ax1,
    __init__ g (Some a) title m = (m', Returns self)
    /\ axes self = a
    /\ mpl_axes m' !! a = Some ax1
    /\ ax_collections ax1 = ax_collections ax0 ++ [pixels self]
    /\ ax_patches ax1 = ax_patches ax0
    /\ ax_figure ax1 = ax_figure ax0
    /\ ax_aspect ax1 = ("equal", "datalim")%string
    /\ ax_title ax1 = title
    /\ ax_xlabel ax1 = "X position (" +:+ unit_str (pix_x g) +:+ ")"
    /\ ax_ylabel ax1 = "Y position (" +:+ unit_str (pix_y g) +:+ ")"
    /\ ax_autoscaled ax1 = S (ax_autoscaled ax0)
    /\ length (mpl_axes m') = length (mpl_axes m)
    /\ forall a', a' ≠ a -> mpl_axes m' !! a' = mpl_axes m !! a'.
Proof.
  intros Hax. rewrite (init_on_axes g a title m ax0 Hax).
  eexists _, _, _. split; [reflexivity|]. split; [reflexivity|].
  cbn [mpl_axes].
  split; [apply list_lookup_insert_eq; by eapply lookup_lt_Some|].
  repeat (split; [reflexivity|]).
  split; [by rewrite length_insert|].
  intros a' Ha'. by apply list_lookup_insert_ne.
Qed.

Lemma init_sets_up_axes_witness :
  exists self m' ax1,
    __init__ rect_camera (Some 0%nat) "Second" hex_store = (m', Returns self)
    /\ axes self = 0%nat
    /\ mpl_axes m' !! 0%nat = Some ax1
    /\ ax_collections ax1 = ax_collections hex_axes ++ [pixels self]
    /\ ax_patches ax1 = ax_patches hex_axes
    /\ ax_figure ax1 = ax_figure hex_axes
    /\ ax_aspect ax1 = ("equal", "datalim")%string
    /\ ax_title ax1 = "Second"%string
    /\ ax_xlabel ax1 = "X position (" +:+ unit_str (pix_x rect_camera) +:+ ")"
    /\ ax_ylabel ax1 = "Y position (" +:+ unit_str (pix_y rect_camera) +:+ ")"
    /\ ax_autoscaled ax1 = S (ax_autoscaled hex_axes)
    /\ length (mpl_axes m') = length (mpl_axes hex_store)
    /\ forall a', a' ≠ 0%nat -> mpl_axes m' !! a' = mpl_axes hex_store !! a'.
Proof.
  apply (init_sets_up_axes rect_camera 0 "Second" hex_store hex_axes).
  reflexivity.
Defined.

(** X5.  Given live axes, construction connects exactly one callback, the
    display's own [_on_pick], to the event "pick_event" of the canvas of
    the figure of these axes, after the connections that were there; it
    requests no redraw, makes no figure and does not touch pyplot's
    current axes. *)
Theorem init_connects_pick (g : CameraGeometry) (a : nat) (title : string)
    (m : Mpl) (ax0 : Axes) :
  mpl_axes m !! a = Some ax0 ->
  exists self m',
    __init__ g (Some a) title m = (m', Returns self)
    /\ mpl_connections m'
       = mpl_connections m
           ++ [(ax_figure ax0, "pick_event"%string, on_pick_of self)]
    /\ mpl_draws m' = mpl_draws m
    /\ mpl_figures m' = mpl_figures m
    /\ mpl_gca m' = mpl_gca m.
Proof.
  intros Hax. rewrite (init_on_axes g a title m ax0 Hax).
  eexists _, _. by repeat split.
Qed.

Lemma init_connects_pick_witness :
  exists self m',
    __init__ rect_camera (Some 0%nat) "Second" hex_store = (m', Returns self)
    /\ mpl_connections m'
       = mpl_connections hex_store
           ++ [(ax_figure hex_axes, "pick_event"%string, on_pick_of self)]
    /\ mpl_draws m' = mpl_draws hex_store
    /\ mpl_figures m' = mpl_figures hex_store
    /\ mpl_gca m' = mpl_gca hex_store.
Proof.
  apply (init_connects_pick rect_camera 0 "Second" hex_store hex_axes).
  reflexivity.
Defined.

(** ** Sequences of set_image and set_cmap *)

Lemma alter_alter_same {A : Type} (f g : A -> A) (i : nat) (l : list A) :
  (forall x, f (g x) = f x) -> alter f i (alter g i l) = alter f i l.
Proof.
  intros Hfg. revert i.
  induction l as [|x l IH]; intros [|i]; simpl; [done|done| |].
  - by rewrite Hfg.
  - f_equal. apply IH.
Qed.


Lemma set_image_store_match (self : CameraDisplay) (image : list R)
    (m : Mpl) :
  length image = npix (geom self) ->
  store_after (set_image self image) m
  = store_after plt_draw
      (store_after (PatchCollection_set_array (pixels self) image) m).
Proof.
  intros H. unfold store_after at 1. by rewrite set_image_match.
Qed.


(** The store that a fitting [set_image] leaves, field by field. *)
Lemma set_image_fields (self : CameraDisplay) (image : list R) (m : Mpl) :
  length image = npix (geom self) ->
  mpl_axes (store_after (set_image self image) m) = mpl_axes m
  /\ mpl_collections (store_after (set_image self image) m)
     = alter (pc_with_array image) (pixels self) (mpl_collections m)
  /\ mpl_drawn (store_after (set_image self image) m)
     = mpl_drawn m
         ++ [mkDrawing (current_figure m) (mpl_axes m)
               (alter (pc_with_array image) (pixels self)
                  (mpl_collections m))]
  /\ mpl_draws (store_after (set_image self image) m) = S (mpl_draws m).
Proof.
  intros H. rewrite (set_image_store_match self image m H).
  destruct (plt_draw_store
              (store_after (PatchCollection_set_array (pixels self) image) m))
    as (-> & -> & _ & _ & -> & ->).
  by repeat split.
Qed.

(** X6.  Of two images of length N set one after the other, only the
    second is left: the collections are those that setting the second
    image alone leaves, and two redraws were requested. *)
Theorem set_image_last_wins (self : CameraDisplay) (im1 im2 : list R)
    (m : Mpl) :
  length im1 = npix (geom self) ->
  length im2 = npix (geom self) ->
  mpl_collections
    (store_after (set_image self im2) (store_after (set_image self im1) m))
  = mpl_collections (store_after (set_image self im2) m)
  /\ mpl_axes
       (store_after (set_image self im2)
          (store_after (set_image self im1) m))
     = mpl_axes m
  /\ mpl_draws
       (store_after (set_image self im2)
          (store_after (set_image self im1) m))
     = S (S (mpl_draws m)).
Proof.
  intros H1 H2.
  destruct (set_image_fields self im1 m H1) as (A1 & C1 & _ & N1).
  destruct (set_image_fields self im2 (store_after (set_image self im1) m) H2)
    as (A2 & C2 & _ & N2).
  destruct (set_image_fields self im2 m H2) as (_ & C3 & _ & _).
  rewrite A2, A1, C2, C1, C3, N2, N1.
  split; [|done].
  by apply alter_alter_same.
Qed.

Lemma set_image_last_wins_witness :
  mpl_collections
    (store_after (set_image hex_display [3; 4])
       (store_after (set_image hex_display [7; 8]) hex_store))
  = mpl_collections (store_after (set_image hex_display [3; 4]) hex_store)
  /\ mpl_axes
       (store_after (set_image hex_display [3; 4])
          (store_after (set_image hex_display [7; 8]) hex_store))
     = mpl_axes hex_store
  /\ mpl_draws
       (store_after (set_image hex_display [3; 4])
          (store_after (set_image hex_display [7; 8]) hex_store))
     = S (S (mpl_draws hex_store)).
Proof.
  apply (set_image_last_wins hex_display [7; 8] [3; 4] hex_store);
    reflexivity.
Defined.



Lemma set_cmaps_same (cmap_registry : string -> option Colormap)
    (self : CameraDisplay) (cs : list cmap_arg) (m : Mpl) :
  same_but_cmap (pixels self) m (set_cmaps cmap_registry self cs m).
Proof.
  unfold set_cmaps. revert m.
  induction cs as [|c cs IH]; intros m; simpl.
  - apply same_but_cmap_refl.
  - eapply same_but_cmap_trans; [apply set_cmap_step|apply IH].
Qed.

(** X8.  After any calls of [set_cmap], a call with a colour map object
    makes that object the colour map of the display's collection, whatever
    the earlier calls chose; shapes, line width and values are those the
    collection had at the start. *)
Theorem set_cmap_last_wins (cmap_registry : string -> option Colormap)
    (self : CameraDisplay) (cs : list cmap_arg) (c : Colormap) (m : Mpl)
    (pc : PatchCollection) :
  mpl_collections m !! pixels self = Some pc ->
  mpl_collections
    (set_cmaps cmap_registry self (cs ++ [CmapObject c]) m) !! pixels self
  = Some (pc_with_cmap c pc).
Proof.
  intros Hpc.
  unfold set_cmaps. rewrite foldl_app. simpl.
  fold (set_cmaps cmap_registry self cs m).
  destruct (set_cmaps_same cmap_registry self cs m)
    as (_ & _ & _ & _ & _ & _ & _ & Hp & Ha & Hl & _).
  apply (f_equal (.!! pixels self)) in Hp.
  apply (f_equal (.!! pixels self)) in Ha.
  apply (f_equal (.!! pixels self)) in Hl.
  rewrite !list_lookup_fmap, Hpc in Hp.
  rewrite !list_lookup_fmap, Hpc in Ha.
  rewrite !list_lookup_fmap, Hpc in Hl.
  unfold store_after; simpl. rewrite list_lookup_alter_eq.
  destruct (mpl_collections (set_cmaps cmap_registry self cs m)
              !! pixels self) as [pc1|]; [|done].
  simpl in *. f_equal. unfold pc_with_cmap. f_equal; congruence.
Qed.

Lemma set_cmap_last_wins_witness :
  mpl_collections
    (set_cmaps (fun _ => None) hex_display
       ([CmapObject (cm "hot"); CmapName "nope"] ++ [CmapObject (cm "gray")])
       hex_store) !! pixels hex_display
  = Some (pc_with_cmap (cm "gray")
            (mkPatchCollection (pixel_patches hex_camera) plt_cm_jet 0 None)).
Proof.
  apply (set_cmap_last_wins (fun _ => None) hex_display
           [CmapObject (cm "hot"); CmapName "nope"] (cm "gray") hex_store).
  reflexivity.
Defined.

(** X9.  The text of the error of [set_image], for an image of k values
    and a geometry of N pixels with k different from N: the two shapes
    are written as one-element tuples, and "the" and "given" run together
    because the message is made of two adjacent string literals. *)
Theorem set_image_message_text (self : CameraDisplay) (image : list R)
    (m : Mpl) :
  length image ≠ npix (geom self) ->
  result_of (set_image self image) m
  = Raises
      (ValueError
         ("Image has a different shape (" +:+ str_int (length image)
            +:+ ",) than thegiven CameraGeometry ("
            +:+ str_int (npix (geom self)) +:+ ",)")).
Proof.
  intros H. unfold result_of. rewrite (set_image_mismatch self image m H).
  simpl. do 2 f_equal.
  unfold shape_message, shape, str_tuple, npix.
  by rewrite !string_app_assoc.
Qed.

Lemma set_image_message_text_witness :
  result_of (set_image hex_display [7; 8; 9]) hex_store
  = Raises
      (ValueError
         "Image has a different shape (3,) than thegiven CameraGeometry (2,)").
Proof.
  apply (set_image_message_text hex_display [7; 8; 9] hex_store).
  unfold npix; simpl; lia.
Defined.

(** ** Failures of add_ellipse and overlay_moments *)

(** A style that repeats a keyword of the [Ellipse] call, and one that
    repeats a keyword of the [add_ellipse] call. *)
Definition filled_style : kwargs_t := {["fill"%string := PyBool true]}.

Definition length_style : kwargs_t := {["length"%string := PyStr "long"]}.

(** A style that names an asymmetry besides an outline colour. *)
Definition asymmetric_style : kwargs_t :=
  <["asymmetry"%string := PyStr "left"]> red_outline.

(** X10.  [add_ellipse] raises in three cases only: an extra keyword
    names one of its own parameters (a [TypeError] at the call), a style
    keyword repeats one of xy, width, height, angle, fill of the
    [Ellipse] call (a [TypeError]), or the library raises on the style;
    whenever it raises, no patch was added and no redraw requested: the
    store is as it was. *)
Theorem add_ellipse_failure (patch_update : kwargs_t -> option exn)
    (self : CameraDisplay) (centroid : R * R) (len wid angle : R)
    (asymmetry : pyvalue) (kwargs : kwargs_t) (m : Mpl) :
  (forall e,
     result_of
       (add_ellipse patch_update self centroid len wid angle asymmetry kwargs)
       m = Raises e
     <-> (clashes add_ellipse_parameters kwargs = true /\ e = TypeError)
         \/ (clashes add_ellipse_parameters kwargs = false
             /\ clashes ellipse_keywords kwargs = true /\ e = TypeError)
         \/ (clashes add_ellipse_parameters kwargs = false
             /\ clashes ellipse_keywords kwargs = false
             /\ patch_update kwargs = Some e))
  /\ ((exists e,
         result_of
           (add_ellipse patch_update self centroid len wid angle asymmetry
              kwargs) m = Raises e) ->
      store_after
        (add_ellipse patch_update self centroid len wid angle asymmetry
           kwargs) m = m).
Proof.
  destruct (clashes add_ellipse_parameters kwargs) eqn:Hp.
  - unfold result_of, store_after, add_ellipse. rewrite Hp. simpl.
    split; [|done]. intros e. split.
    + intros [= <-]. by left.
    + intros [[_ ->]|[(? & _)|(? & _)]]; done.
  - destruct (clashes ellipse_keywords kwargs) eqn:Hc.
    + unfold result_of, store_after, add_ellipse, bind, Ellipse_call.
      rewrite Hp, Hc. simpl.
      split; [|done]. intros e. split.
      * intros [= <-]. right. by left.
      * intros [[? _]|[(_ & _ & ->)|(_ & ? & _)]]; done.
    + destruct (patch_update kwargs) as [e0|] eqn:Hu.
      * unfold result_of, store_after, add_ellipse, bind, Ellipse_call.
        rewrite Hp, Hc, Hu. simpl.
        split; [|done]. intros e. split.
        -- intros [= <-]. right. by right.
        -- intros [[? _]|[(_ & ? & _)|(_ & _ & [= <-])]]; done.
      * unfold result_of, store_after.
        rewrite (add_ellipse_ok _ _ _ _ _ _ asymmetry _ m Hp Hc Hu). simpl.
        split.
        -- intros e. split; [done|].
           intros [[? _]|[(_ & ? & _)|(_ & _ & ?)]]; done.
        -- intros [e He]. done.
Qed.

Lemma filled_style_parameters :
  clashes add_ellipse_parameters filled_style = false.
Proof. vm_compute. reflexivity. Qed.

Lemma filled_style_clashes : clashes ellipse_keywords filled_style = true.
Proof. vm_compute. reflexivity. Qed.

Lemma add_ellipse_failure_witness :
  result_of
    (add_ellipse (fun _ => None) hex_display (1, 2) 4 2 0 default_asymmetry
       filled_style) hex_store = Raises TypeError
  /\ store_after
       (add_ellipse (fun _ => None) hex_display (1, 2) 4 2 0
          default_asymmetry filled_style) hex_store = hex_store.
Proof.
  pose proof (add_ellipse_failure (fun _ => None) hex_display (1, 2) 4 2 0
                default_asymmetry filled_style hex_store) as [Hiff Hst].
  assert (Hr : result_of
                 (add_ellipse (fun _ => None) hex_display (1, 2) 4 2 0
                    default_asymmetry filled_style) hex_store
               = Raises TypeError).
  { apply Hiff. right. left.
    split; [exact filled_style_parameters|].
    split; [exact filled_style_clashes|reflexivity]. }
  split; [exact Hr|]. apply Hst. eexists. exact Hr.
Defined.

Lemma clashes_delete (names : list string) (k : string) (kwargs : kwargs_t) :
  k ∉ names -> clashes names (delete k kwargs) = clashes names kwargs.
Proof.
  unfold clashes. induction names as [|n names IH]; intros Hk; [done|].
  simpl. rewrite IH by set_solver.
  rewrite lookup_delete_ne by set_solver. done.
Qed.

(** X11.  An asymmetry among the style keywords of [overlay_moments] has
    no effect: it becomes the unused parameter of [add_ellipse] and is not
    handed to the patch, so the call does what the call without this
    keyword does. *)
Theorem overlay_moments_ignores_asymmetry
    (patch_update : kwargs_t -> option exn) (self : CameraDisplay)
    (momparams : MomentParameters.t) (style : kwargs_t) (m : Mpl) :
  overlay_moments patch_update self momparams style m
  = overlay_moments patch_update self momparams
      (delete "asymmetry"%string style) m.
Proof.
  unfold overlay_moments, bind, add_ellipse_kw.
  rewrite (clashes_delete overlay_moments_parameters)
    by (apply (bool_decide_unpack _); by vm_compute).
  rewrite (clashes_delete add_ellipse_keywords)
    by (apply (bool_decide_unpack _); by vm_compute).
  destruct (clashes overlay_moments_parameters style); [done|].
  destruct (clashes add_ellipse_keywords style); [done|].
  by rewrite delete_delete_eq.
Qed.

(** X12.  A style keyword of [overlay_moments] that repeats one of
    centroid, length, width, angle (or self) makes the call raise a
    [TypeError] before [add_ellipse] runs; and whenever [overlay_moments]
    raises, the store is as it was. *)
Theorem overlay_moments_failure (patch_update : kwargs_t -> option exn)
    (self : CameraDisplay) (momparams : MomentParameters.t)
    (style : kwargs_t) (m : Mpl) :
  (clashes add_ellipse_keywords style = true ->
   overlay_moments patch_update self momparams style m = (m, Raises TypeError))
  /\ ((exists e,
         result_of (overlay_moments patch_update self momparams style) m
         = Raises e) ->
      store_after (overlay_moments patch_update self momparams style) m = m).
Proof.
  unfold result_of, store_after. rewrite overlay_moments_unfold.
  destruct (clashes overlay_moments_parameters style).
  - by split.
  - split.
    + intros Hk. unfold add_ellipse_from_moments, add_ellipse_kw.
      by rewrite Hk.
    + intros [e He].
      destruct (add_ellipse_kw_result patch_update self
                  (MomentParameters.cen_x momparams,
                   MomentParameters.cen_y momparams)
                  (MomentParameters.length momparams)
                  (MomentParameters.width momparams)
                  (MomentParameters.psi momparams) style m)
        as [[e' He']|[p Hp]];
        unfold result_of in *;
        fold (add_ellipse_from_moments patch_update self momparams style)
          in *.
      * by rewrite He'.
      * destruct (add_ellipse_from_moments _ _ _ _ m) as [m' [r|e']];
          simpl in *; done.
Qed.

Lemma length_style_clashes : clashes add_ellipse_keywords length_style = true.
Proof. vm_compute. reflexivity. Qed.

Lemma overlay_moments_failure_witness :
  overlay_moments (fun _ => None) hex_display tilted_moments length_style
    hex_store
  = (hex_store, Raises TypeError).
Proof.
  apply (proj1 (overlay_moments_failure (fun _ => None) hex_display
                  tilted_moments length_style hex_store)).
  exact length_style_clashes.
Defined.

Lemma asymmetric_style_add_ellipse :
  clashes add_ellipse_keywords asymmetric_style = false.
Proof. vm_compute. reflexivity. Qed.

Lemma asymmetric_style_overlay :
  clashes overlay_moments_parameters asymmetric_style = false.
Proof. vm_compute. reflexivity. Qed.

Lemma asymmetric_style_delete :
  delete "asymmetry"%string asymmetric_style = red_outline.
Proof.
  unfold asymmetric_style. rewrite delete_insert_eq.
  exact red_outline_no_asymmetry.
Qed.

Lemma overlay_moments_ellipse_witness :
  exists m' ax',
    overlay_moments (fun _ => None) hex_display tilted_moments
      asymmetric_style hex_store = (m', Returns RNone)
    /\ mpl_axes m' !! axes hex_display = Some ax'
    /\ ax_patches ax'
       = ax_patches hex_axes
           ++ [Ellipse
                 (MomentParameters.cen_x tilted_moments,
                  MomentParameters.cen_y tilted_moments)
                 (MomentParameters.width tilted_moments)
                 (MomentParameters.length tilted_moments)
                 (MomentParameters.psi tilted_moments * 180 / PI) false
                 (delete "asymmetry"%string asymmetric_style)].
Proof.
  apply (overlay_moments_ellipse (fun _ => None) hex_display tilted_moments
           asymmetric_style hex_store hex_axes).
  - reflexivity.
  - exact asymmetric_style_overlay.
  - exact asymmetric_style_add_ellipse.
  - rewrite asymmetric_style_delete. exact red_outline_ellipse.
  - reflexivity.
Defined.

Lemma add_ellipse_twice_witness :
  exists ax'',
    mpl_axes
      (store_after
         (add_ellipse (fun _ => None) hex_display (1, 2) 4 2 0
            default_asymmetry red_outline)
         (store_after
            (add_ellipse (fun _ => None) hex_display (0, 0) 2 1 PI
               default_asymmetry ∅) hex_store))
      !! axes hex_display = Some ax''
    /\ ax_patches ax''
       = ax_patches hex_axes
           ++ [Ellipse (0, 0) 1 2 (PI * 180 / PI) false ∅;
               Ellipse (1, 2) 2 4 (0 * 180 / PI) false red_outline].
Proof.
  apply (add_ellipse_twice (fun _ => None) hex_display (0, 0) (1, 2)
           2 1 PI 4 2 0 default_asymmetry default_asymmetry ∅ red_outline
           hex_store hex_axes).
  - reflexivity.
  - vm_compute. reflexivity.
  - vm_compute. reflexivity.
  - reflexivity.
  - exact red_outline_parameters.
  - exact red_outline_ellipse.
  - reflexivity.
Defined.

(** ** What every call keeps *)

Lemma overlay_moments_display_ok (patch_update : kwargs_t -> option exn)
    (self : CameraDisplay) (momparams : MomentParameters.t)
    (style : kwargs_t) (m : Mpl) :
  display_ok self m ->
  display_ok self
    (store_after (overlay_moments patch_update self momparams style) m).
Proof.
  intros Hok.
  unfold store_after. rewrite overlay_moments_unfold.
  destruct (clashes overlay_moments_parameters style); [done|].
  unfold add_ellipse_from_moments, add_ellipse_kw.
  destruct (clashes add_ellipse_keywords style); [done|].
  match goal with
  | |- context [add_ellipse ?pu ?s ?c ?l ?w ?a ?y ?k m] =>
      pose proof (add_ellipse_display_ok pu s c l w a y k m Hok) as H;
      unfold store_after in H;
      destruct (add_ellipse pu s c l w a y k m) as [m' [r|e]]
  end; done.
Qed.

(** X15.  Whatever public methods are called on a display, with whatever
    arguments and whether they return or raise, the display's handles
    stay live: its axes still shows its collection, and the collection
    still holds exactly the shapes built from the geometry, which are
    never rebuilt, removed or reordered. *)
Theorem calls_keep_display (cmap_registry : string -> option Colormap)
    (patch_update : kwargs_t -> option exn) (self : CameraDisplay)
    (cs : list call) (m : Mpl) :
  display_ok self m ->
  display_ok self (run_calls cmap_registry patch_update self cs m).
Proof.
  unfold run_calls. revert m.
  induction cs as [|c cs IH]; intros m Hok; simpl; [done|].
  apply IH. destruct c; simpl.
  - by apply set_cmap_display_ok.
  - by apply set_image_display_ok.
  - by apply add_ellipse_display_ok.
  - by apply overlay_moments_display_ok.
Qed.

Lemma hex_display_ok : display_ok hex_display hex_store.
Proof.
  split.
  - exists hex_axes. split; [reflexivity|]. simpl. by left.
  - eexists. split; [exact hex_store_pixels|reflexivity].
Qed.

Lemma calls_keep_display_witness :
  display_ok hex_display
    (run_calls (fun _ => None) (fun _ => None) hex_display
       [call_set_image [7; 8]; call_set_cmap (CmapName "nope");
        call_add_ellipse (1, 2) 4 2 0 default_asymmetry red_outline;
        call_overlay_moments tilted_moments length_style;
        call_set_image [1]]
       hex_store).
Proof.
  apply (calls_keep_display (fun _ => None) (fun _ => None) hex_display).
  exact hex_display_ok.
Defined.


(** ** Several displays, and the default axes *)



(** X18.  Without axes, construction draws on pyplot's current axes: when
    pyplot has a current axes, leaving the argument out is the same as
    passing that axes. *)
Theorem init_default_axes (g : CameraGeometry) (title : string) (m : Mpl)
    (a : nat) :
  mpl_gca m = Some a ->
  __init__ g None title m = __init__ g (Some a) title m.
Proof.
  intros Hgca. unfold __init__, bind at 1 3, plt_gca, ret.
  by rewrite Hgca.
Qed.

Lemma init_default_axes_witness :
  __init__ rect_camera None "Second" hex_store
  = __init__ rect_camera (Some 0%nat) "Second" hex_store.
Proof.
  apply (init_default_axes rect_camera "Second" hex_store 0).
  reflexivity.
Defined.

(** Without axes and without a current axes, construction has pyplot
    make an axes on its current figure (and that figure, when there is
    none), which becomes the current axes, and draws on it: the display
    is live, the new axes shows the display's collection and nothing
    else, and the axes that existed are as they were. *)
Lemma init_makes_axes (g : CameraGeometry) (title : string) (m : Mpl) :
  mpl_gca m = None ->
  exists self m' ax1,
    __init__ g None title m = (m', Returns self)
    /\ axes self = length (mpl_axes m)
    /\ mpl_gca m' = Some (axes self)
    /\ mpl_gcf m' = Some (current_figure m)
    /\ mpl_axes m' !! axes self = Some ax1
    /\ ax_figure ax1 = current_figure m
    /\ ax_collections ax1 = [pixels self]
    /\ ax_patches ax1 = []
    /\ ax_title ax1 = title
    /\ display_ok self m'
    /\ forall a, (a < length (mpl_axes m))%nat ->
                 mpl_axes m' !! a = mpl_axes m !! a.
Proof.
  intros Hgca.
  assert (Hstep :
    __init__ g None title m
    = __init__ g (Some (length (mpl_axes m))) title
        (mkMpl (mpl_axes m ++ [Axes_new (current_figure m)])
           (mpl_collections m)
           (Some (length (mpl_axes m))) (Some (current_figure m))
           (match mpl_gcf m with
            | Some _ => mpl_figures m
            | None => S (mpl_figures m)
            end)
           (mpl_connections m) (mpl_drawn m))).
  { unfold __init__, bind at 1 3, plt_gca, plt_gcf, ret, current_figure.
    rewrite Hgca. destruct (mpl_gcf m) as [f|] eqn:E; simpl; by rewrite ?E. }
  rewrite Hstep.
  rewrite (init_on_axes g _ title _ (Axes_new (current_figure m)))
    by (by apply list_lookup_middle).
  cbn [mpl_axes mpl_collections].
  assert (Hlt : (length (mpl_axes m)
                 < length (mpl_axes m ++ [Axes_new (current_figure m)]))%nat).
  { rewrite length_app. simpl. lia. }
  eexists _, _, _. split; [reflexivity|].
  cbn [axes pixels geom mpl_gca mpl_gcf mpl_axes mpl_collections].
  split; [done|]. split; [done|]. split; [done|].
  split; [by apply list_lookup_insert_eq|].
  split; [done|]. split; [done|]. split; [done|]. split; [done|].
  split.
  - split; cbn [axes pixels geom mpl_axes mpl_collections].
    + eexists. split; [by apply list_lookup_insert_eq|]. simpl. by left.
    + eexists. split; [by apply list_lookup_middle|done].
  - intros a Ha.
    rewrite list_lookup_insert_ne by lia. by apply lookup_app_l.
Qed.

(** ** _radius_to_size *)

(** X19.  [_radius_to_size] gives one size per radius, and the size grows
    with the radius itself, not with its square: radii that are k times
    as long give sizes that are k times as large. *)
Theorem radius_to_size_linear (k : R) (radii : list R) :
  length (_radius_to_size radii) = length radii
  /\ _radius_to_size (map (fun r => k * r) radii)
     = map (fun s => k * s) (_radius_to_size radii).
Proof.
  unfold _radius_to_size. split; [apply length_map|].
  rewrite !map_map. apply map_ext. intros r. lra.
Qed.
